(** * The research pipeline: orchestrator, source extractor, client reducer

    A shallow embedding of
      - [app/(chat)/api/research/route.ts]   (extractSourcesFromContent, POST),
      - [lib/ai/research/types.ts]           (researchRequestSchema),
      - [hooks/use-research.tsx]             (initialState, handleResearchData,
                                              resetResearch),
    followed by the properties the specification states about them. *)

From Stdlib Require Import ZArith String Ascii.
From stdpp Require Import base tactics option list gmap strings.

Local Open Scope string_scope.
Local Open Scope list_scope.

(** ** Values travelling on the wire

    Event payloads are typed [unknown] on the client and the TypeScript casts
    ([delta.data as ResearchStatus]) are erased at run time, so a payload is
    any JSON value.  Numbers are never inspected by the code below; an integer
    stands for any of them.  Strings are sequences of code units and
    [String.length] is JavaScript's [.length]. *)

#[local] Set Warnings "-register-all".

Inductive JValue : Type :=
| JNull
| JBool (b : bool)
| JNum (n : Z)
| JStr (s : string)
| JArr (items : list JValue)
| JObj (fields : list (string * JValue)).

(** [v !== lit] for a string literal [lit]: strict inequality never coerces, so
    only the string primitive with the same code units is equal. *)
Definition strict_neq_str (v : JValue) (lit : string) : bool :=
  match v with
  | JStr s => negb (String.eqb s lit)
  | _ => true
  end.

(** [lib/ai/research/types.ts]: ResearchSource. *)
Record ResearchSource : Type := mkSource {
  title : string;
  url : string;
  domain : string
}.

(** The JSON shape of a source list, as serialised into a data part. *)
Definition sourceToJson (s : ResearchSource) : JValue :=
  JObj [("title", JStr (title s)); ("url", JStr (url s)); ("domain", JStr (domain s))].

Definition sourcesToJson (l : list ResearchSource) : JValue :=
  JArr (map sourceToJson l).

(** A data part of the UI message stream: [{ type, data }]. *)
Record Delta : Type := mkDelta {
  type : string;
  data : JValue
}.

(** ** Client reducer ([hooks/use-research.tsx]) *)

Module Reducer.

Record ResearchState : Type := mkState {
  status : JValue;            (* ResearchStatus | null *)
  rewrittenQuery : JValue;    (* string | null *)
  searchResults : JValue;     (* string | null *)
  sources : JValue;           (* ResearchSource[] *)
  isActive : bool
}.

Definition initialState : ResearchState := {|
  status := JNull;
  rewrittenQuery := JNull;
  searchResults := JNull;
  sources := JArr [];
  isActive := false
|}.

(** React's state setter takes either the next value or an updater that is
    applied to the previous state; queued actions are applied in order. *)
Inductive SetStateAction : Type :=
| NextValue (s : ResearchState)
| Updater (f : ResearchState → ResearchState).

Definition setResearch (a : SetStateAction) (prev : ResearchState) : ResearchState :=
  match a with
  | NextValue s => s
  | Updater f => f prev
  end.

(** The [switch (delta.type)] of handleResearchData.  The default branch
    calls no setter at all. *)
Definition handleResearchData (delta : Delta) : ResearchState → ResearchState :=
  if String.eqb (type delta) "data-research-status" then
    setResearch (Updater (λ prev, {|
      status := data delta;
      rewrittenQuery := rewrittenQuery prev;
      searchResults := searchResults prev;
      sources := sources prev;
      isActive := strict_neq_str (data delta) "complete"
                  && strict_neq_str (data delta) "error" |}))
  else if String.eqb (type delta) "data-research-query-rewritten" then
    setResearch (Updater (λ prev, {|
      status := status prev;
      rewrittenQuery := data delta;
      searchResults := searchResults prev;
      sources := sources prev;
      isActive := isActive prev |}))
  else if String.eqb (type delta) "data-research-search-results" then
    setResearch (Updater (λ prev, {|
      status := status prev;
      rewrittenQuery := rewrittenQuery prev;
      searchResults := data delta;
      sources := sources prev;
      isActive := isActive prev |}))
  else if String.eqb (type delta) "data-research-sources" then
    setResearch (Updater (λ prev, {|
      status := status prev;
      rewrittenQuery := rewrittenQuery prev;
      searchResults := searchResults prev;
      sources := data delta;
      isActive := isActive prev |}))
  else if String.eqb (type delta) "data-research-complete" then
    setResearch (Updater (λ prev, {|
      status := status prev;
      rewrittenQuery := rewrittenQuery prev;
      searchResults := searchResults prev;
      sources := sources prev;
      isActive := false |}))
  else
    λ prev, prev.

Definition resetResearch : ResearchState → ResearchState :=
  setResearch (NextValue initialState).

(** The state after the deltas [ds] have arrived, in order, at a reducer
    that started from [st]. *)
Definition feed (ds : list Delta) (st : ResearchState) : ResearchState :=
  foldl (λ s d, handleResearchData d s) st ds.

(** The reachable states are those fed from [initialState]. *)
Definition reached (ds : list Delta) : ResearchState := feed ds initialState.

(** Vocabulary of the statements. *)
Definition recognized : list string :=
  [ "data-research-status"; "data-research-query-rewritten";
    "data-research-search-results"; "data-research-sources";
    "data-research-complete" ].

Definition is_status (d : Delta) : Prop := type d = "data-research-status".
Definition is_complete (d : Delta) : Prop := type d = "data-research-complete".
Definition terminal (v : JValue) : Prop := v = JStr "complete" ∨ v = JStr "error".

Definition statusDelta (v : JValue) : Delta :=
  {| type := "data-research-status"; data := v |}.
Definition completeDelta : Delta :=
  {| type := "data-research-complete"; data := JNull |}.

(** The history reading of "active": some status delta carried a value other
    than complete and error, and neither a status nor a complete delta came
    after it. *)
Definition active_history (ds : list Delta) : Prop :=
  ∃ pre d post,
    ds = pre ++ d :: post ∧ is_status d ∧ ¬ terminal (data d) ∧
    Forall (λ e, ¬ is_status e ∧ ¬ is_complete e) post.

End Reducer.

(** ** Exceptions

    A JavaScript computation either returns a value or throws. *)

Inductive JsError : Type := mkError (message : string).

Inductive Result (A : Type) : Type :=
| Ok (a : A)
| Raise (e : JsError).
Arguments Ok {A} a.
Arguments Raise {A} e.

#[global] Instance Result_ret : MRet Result := λ A a, Ok a.
#[global] Instance Result_bind : MBind Result := λ A B f m,
  match m with
  | Ok a => f a
  | Raise e => Raise e
  end.

(** [try { body } catch { handler }] *)
Definition try_catch {A : Type} (body : Result A) (handler : JsError → Result A) : Result A :=
  match body with
  | Ok a => Ok a
  | Raise e => handler e
  end.

(** The part of a parsed [URL] object that the code reads. *)
Record URL : Type := mkURL { hostname : string }.

(** ** Source extractor ([extractSourcesFromContent], route.ts) *)

Module Extractor.

(** One match of [urlRegex]: capture groups 1 and 2. *)
Record Match : Type := mkMatch {
  m_title : string;
  m_url : string
}.

(** A greedy negated class [[^c]+] followed by the literal [c]: the class
    takes the longest run free of [c]; giving back characters cannot help,
    the character after a shorter run is not [c].  [span_until c s] is that
    longest run together with what follows it. *)
Fixpoint span_until (c : ascii) (s : string) : string * string :=
  match s with
  | EmptyString => (EmptyString, EmptyString)
  | String a s' =>
      if Ascii.eqb a c then (EmptyString, s)
      else let '(run, rest) := span_until c s' in (String a run, rest)
  end.

Fixpoint strip_prefix (p s : string) : option string :=
  match p, s with
  | EmptyString, _ => Some s
  | String a p', String b s' => if Ascii.eqb a b then strip_prefix p' s' else None
  | String _ _, EmptyString => None
  end.

(** [https?:\/\/]: the optional [s] is tried first; without it the next
    character would have to be [:] and is [s]. *)
Definition scheme (s : string) : option (string * string) :=
  match strip_prefix "https://" s with
  | Some rest => Some ("https://", rest)
  | None =>
      match strip_prefix "http://" s with
      | Some rest => Some ("http://", rest)
      | None => None
      end
  end.

(** [/\[([^\]]+)\]\((https?:\/\/[^)]+)\)/] anchored at the start of [s]:
    the two captures and the text after the match. *)
Definition matchAt (s : string) : option (Match * string) :=
  match s with
  | String "[" s1 =>
      let '(title, s2) := span_until "]" s1 in
      match title, s2 with
      | String _ _, String "]" (String "(" s3) =>
          match scheme s3 with
          | Some (sch, s4) =>
              let '(tail, s5) := span_until ")" s4 in
              match tail, s5 with
              | String _ _, String ")" s6 =>
                  Some ({| m_title := title; m_url := sch +:+ tail |}, s6)
              | _, _ => None
              end
          | None => None
          end
      | _, _ => None
      end
  | _ => None
  end.

(** [content.matchAll(urlRegex)] with the [g] flag: the leftmost match from
    the current position, then on from the end of that match.  A match is
    never empty, so [fuel] equal to the length of the text is never used
    up (see [matchAll_from_fuel]). *)
Fixpoint matchAll_from (fuel : nat) (s : string) : list Match :=
  match fuel with
  | O => []
  | S fuel' =>
      match s with
      | EmptyString => []
      | String _ s' =>
          match matchAt s with
          | Some (m, rest) => m :: matchAll_from fuel' rest
          | None => matchAll_from fuel' s'
          end
      end
  end.

Definition matchAll (content : string) : list Match :=
  matchAll_from (String.length content) content.

(** The two locals of the function. *)
Record Locals : Type := mkLocals {
  sources : list ResearchSource;
  seen : gset string
}.

Section WithURL.

(** [new URL(url)]: the runtime's parser, which throws on invalid input. *)
Variable newURL : string → Result URL.

(** The body of the [for ... of] loop. *)
Definition visit (st : Locals) (m : Match) : Result Locals :=
  if decide (m_url m ∈ seen st) then Ok st
  else
    let seen' := seen st ∪ {[ m_url m ]} in
    try_catch
      (u ← newURL (m_url m);
       Ok {| sources := sources st ++
               [ {| title := m_title m; url := m_url m; domain := hostname u |} ];
             seen := seen' |})
      (λ _, Ok {| sources := sources st; seen := seen' |}).

Fixpoint forOf (ms : list Match) (st : Locals) : Result Locals :=
  match ms with
  | [] => Ok st
  | m :: ms' => st' ← visit st m; forOf ms' st'
  end.

Definition extractSourcesFromContent (content : string) : Result (list ResearchSource) :=
  st ← forOf (matchAll content) {| sources := []; seen := ∅ |};
  Ok (sources st).

(** *** The reference algorithm, in the specification's words

    Parse each match and skip it when parsing fails; keep a record only
    on the first sighting of its url, in order of first appearance; the
    domain is the parsed hostname. *)
Definition parsed (m : Match) : option ResearchSource :=
  match newURL (m_url m) with
  | Ok u => Some {| title := m_title m; url := m_url m; domain := hostname u |}
  | Raise _ => None
  end.

Fixpoint firstSightings (sighted : list string) (l : list ResearchSource)
  : list ResearchSource :=
  match l with
  | [] => []
  | s :: l' =>
      if decide (url s ∈ sighted) then firstSightings sighted l'
      else s :: firstSightings (url s :: sighted) l'
  end.

Definition extractSources_reference (text : string) : list ResearchSource :=
  firstSightings [] (omap parsed (matchAll text)).

(** What links the two bookkeepings: every url the reference has sighted is
    in [seen], and a url in [seen] that the reference has not sighted is one
    the parser rejects (the loop adds a url to [seen] before parsing it). *)
Definition agree (S : gset string) (E : list string) : Prop :=
  (∀ u, u ∈ E → u ∈ S) ∧
  (∀ u, u ∈ S → u ∉ E → ∃ e, newURL u = Raise e).

End WithURL.

End Extractor.


(** ** Pipeline orchestrator ([POST], route.ts) *)

Module Orchestrator.

(** [lib/ai/research/prompts.ts] *)
Module prompts.
Definition queryRewriter : string :=
  "Expand this research question. Add relevant context and related terms. Output only the expanded query, nothing else.".
Definition webSearch : string := "Research this topic thoroughly:".
Definition synthesis : string :=
  "Synthesize these search results into a clear answer. Use markdown formatting. Cite sources with [title](url) format.".
End prompts.

(** The three model designators of [lib/ai/providers]. *)
Inductive Model : Type := QueryRewriterModel | WebSearchModel | SynthesisModel.

(** The arguments of one model call. *)
Record ModelCall : Type := mkCall {
  model : Model;
  system : option string;
  prompt : string
}.

(** What [streamText] hands back: the answer arrives token by token after the
    call has returned, and the provider may fail before or between tokens. *)
Record SynthesisStream : Type := mkSynthesis {
  tokens : list string;
  failure : option JsError
}.

(** The model provider, an external collaborator.  [generateText] is awaited:
    it yields the full text or throws.  [streamText] returns at once; it can
    throw only while the call is being set up. *)
Record Provider : Type := mkProvider {
  generateText : ModelCall → Result string;
  streamText : ModelCall → Result SynthesisStream
}.

(** A chunk of the UI message stream. *)
Inductive UIChunk : Type :=
| DataPart (d : Delta)              (* written by the orchestrator *)
| TextDelta (delta : string)        (* a token of the synthesis answer *)
| ErrorPart (errorText : string).   (* error frame *)

(** [synthesisResult.toUIMessageStream(...)]: the tokens as text deltas and,
    if the provider failed, the stream's error frame.  The framing chunks
    around them (start, finish) carry nothing the statements below look at
    and are left out. *)
Definition toUIMessageStream (s : SynthesisStream) : list UIChunk :=
  map TextDelta (tokens s) ++
  match failure s with
  | Some (mkError msg) => [ErrorPart msg]
  | None => []
  end.

(** The state an [execute] callback acts on: the chunks enqueued so far, the
    streams handed to [merge], and the model calls made. *)
Record Run : Type := mkRun {
  channel : list UIChunk;
  merged : list (list UIChunk);
  calls : list ModelCall
}.

Definition start : Run := {| channel := []; merged := []; calls := [] |}.

(** Computations of the callback: state passing with exceptions; what was
    written before a throw stays written. *)
Definition Exec (A : Type) : Type := Run → Result A * Run.

#[global] Instance Exec_ret : MRet Exec := λ A a r, (Ok a, r).
#[global] Instance Exec_bind : MBind Exec := λ A B f m r,
  match m r with
  | (Ok a, r') => f a r'
  | (Raise e, r') => (Raise e, r')
  end.

Definition throw {A : Type} (e : JsError) : Exec A := λ r, (Raise e, r).

Definition tryCatch {A : Type} (body : Exec A) (handler : JsError → Exec A) : Exec A :=
  λ r, match body r with
       | (Ok a, r') => (Ok a, r')
       | (Raise e, r') => handler e r'
       end.

Definition lift {A : Type} (x : Result A) : Exec A := λ r, (x, r).

(** [dataStream.write(part)]: the part is enqueued at once. *)
Definition write (d : Delta) : Exec unit := λ r,
  (Ok (), {| channel := channel r ++ [DataPart d];
             merged := merged r; calls := calls r |}).

(** [dataStream.merge(stream)] is not awaited and returns at once: it only
    hands the stream over.  The stream is read in the background, and
    JavaScript runs the calling code to its next [await] (or to its end)
    before a chunk read that way can be enqueued. *)
Definition merge (s : list UIChunk) : Exec unit := λ r,
  (Ok (), {| channel := channel r; merged := merged r ++ [s]; calls := calls r |}).

Section WithProvider.

Variable newURL : string → Result URL.
Variable provider : Provider.

(** [await generateText({...})] *)
Definition awaitGenerateText (c : ModelCall) : Exec string := λ r,
  (generateText provider c,
   {| channel := channel r; merged := merged r; calls := calls r ++ [c] |}).

(** [streamText({...})], not awaited *)
Definition callStreamText (c : ModelCall) : Exec SynthesisStream := λ r,
  (streamText provider c,
   {| channel := channel r; merged := merged r; calls := calls r ++ [c] |}).

Definition statusPart (s : string) : Delta :=
  {| type := "data-research-status"; data := JStr s |}.

Definition nl : string := String (ascii_of_nat 10) EmptyString.

Definition synthesisPrompt (query rewrittenQuery searchContent : string)
  (sources : list ResearchSource) : string :=
  "Original Question: " +:+ query +:+ nl +:+ nl +:+
  "Expanded Research Query: " +:+ rewrittenQuery +:+ nl +:+ nl +:+
  "Web Search Findings:" +:+ nl +:+ searchContent +:+ nl +:+ nl +:+
  "Available Sources:" +:+ nl +:+
  String.concat nl (map (λ s, "- " +:+ title s +:+ ": " +:+ url s) sources) +:+ nl +:+ nl +:+
  "Please synthesize a comprehensive answer:".

(** The [execute] callback, lines 73-172. *)
Definition execute (query : string) : Exec unit :=
  tryCatch
    ((* Step 1: Rewrite the query *)
     write (statusPart "rewriting-query");;
     rewrittenQuery ← awaitGenerateText
       {| model := QueryRewriterModel;
          system := Some prompts.queryRewriter;
          prompt := query |};
     write {| type := "data-research-query-rewritten"; data := JStr rewrittenQuery |};;
     (* Step 2: Web search *)
     write (statusPart "searching");;
     searchContent ← awaitGenerateText
       {| model := WebSearchModel;
          system := None;
          prompt := prompts.webSearch +:+ " " +:+ rewrittenQuery |};
     sources ← lift (Extractor.extractSourcesFromContent newURL searchContent);
     write {| type := "data-research-search-results"; data := JStr searchContent |};;
     write {| type := "data-research-sources"; data := sourcesToJson sources |};;
     (* Step 3: Synthesize the results *)
     write (statusPart "synthesizing");;
     write {| type := "data-research-synthesis-start"; data := JNull |};;
     synthesisResult ← callStreamText
       {| model := SynthesisModel;
          system := Some prompts.synthesis;
          prompt := synthesisPrompt query rewrittenQuery searchContent sources |};
     (* Stream the synthesis result *)
     merge (toUIMessageStream synthesisResult);;
     (* Mark as complete *)
     write (statusPart "complete");;
     write {| type := "data-research-complete"; data := JNull |})
    (λ error,
     write (statusPart "error");;
     throw error).

(** [onError: () => "Research failed. Please try again."] *)
Definition onError (e : JsError) : string := "Research failed. Please try again.".

(** [createUIMessageStream({ execute, onError })], the host framework's
    transport: it runs the callback on an empty channel; if the callback
    throws, the error is turned into an error frame; the chunks of the merged
    streams follow as they are read; then the stream closes.  [execute]
    yields at its two awaited calls only (lines 81 and 99), both before the
    one [merge] (line 150), so no merged chunk can arrive earlier than the
    end of the callback.  The result is what the client receives, in order,
    with the model calls made. *)
Definition createUIMessageStream (exec : Exec unit) : list UIChunk * list ModelCall :=
  match exec start with
  | (outcome, r) =>
      (channel r ++
       match outcome with
       | Ok _ => []
       | Raise e => [ErrorPart (onError e)]
       end ++
       concat (merged r),
       calls r)
  end.

End WithProvider.

(** *** Completion handler ([onFinish], lines 174-188) *)

(** A message as the transport reports it, and as it is stored. *)
Record UIMessage : Type := mkMessage {
  msg_id : string;
  msg_role : string;
  msg_parts : list UIChunk
}.

Record DBMessage : Type := mkDBMessage {
  db_id : string;
  db_chatId : string;
  db_role : string;
  db_parts : list UIChunk
}.

(** The calls made on the store: each [saveMessages] with its batch. *)
Definition onFinish (chatId : string) (finishedMessages : list UIMessage)
  : list (list DBMessage) :=
  if decide (0 < length finishedMessages) then
    [ map (λ msg, {| db_id := msg_id msg; db_chatId := chatId;
                     db_role := msg_role msg; db_parts := msg_parts msg |})
          finishedMessages ]
  else [].

(** *** Request validation ([researchRequestSchema], types.ts) *)

Record ResearchRequest : Type := mkRequest {
  id : string;
  query : string;
  chatId : string
}.

(** The value of property [k] of an object: its first binding. *)
Fixpoint property (k : string) (fields : list (string * JValue)) : option JValue :=
  match fields with
  | [] => None
  | (k', v) :: rest => if String.eqb k' k then Some v else property k rest
  end.

Definition zodError : JsError := mkError "ZodError".

Section WithUuid.

(** The validator's UUID pattern, a detail of the validation library. *)
Variable isUuid : string → bool.

(** [z.string().uuid()] *)
Definition z_string_uuid (v : option JValue) : Result string :=
  match v with
  | Some (JStr s) => if isUuid s then Ok s else Raise zodError
  | _ => Raise zodError
  end.

(** [z.string().min(1).max(2000)] *)
Definition z_string_min_max (lo hi : nat) (v : option JValue) : Result string :=
  match v with
  | Some (JStr s) =>
      if (lo <=? String.length s)%nat && (String.length s <=? hi)%nat
      then Ok s else Raise zodError
  | _ => Raise zodError
  end.

(** [researchRequestSchema.parse(json)] *)
Definition researchRequestSchema_parse (json : JValue) : Result ResearchRequest :=
  match json with
  | JObj fields =>
      i ← z_string_uuid (property "id" fields);
      q ← z_string_min_max 1 2000 (property "query" fields);
      c ← z_string_uuid (property "chatId" fields);
      Ok {| id := i; query := q; chatId := c |}
  | _ => Raise zodError
  end.

End WithUuid.

(** *** The route handler ([POST], lines 55-193) *)

(** [request.json()] either yields the parsed body or throws. *)
Record Request : Type := mkHttpRequest { json : Result JValue }.

Record User : Type := mkUser { user_id : string }.
Record Session : Type := mkSession { user : option User }.

Inductive ErrorCode : Type := bad_request_api | unauthorized_chat.

Inductive ResponseBody : Type :=
| ErrorBody (code : ErrorCode)           (* a JSON object naming the error *)
| StreamBody (chunks : list UIChunk).    (* the event stream *)

Record Response : Type := mkResponse {
  statusCode : nat;
  body : ResponseBody
}.

(** Modelled from the spec: [lib/errors.ts] ([ChatSDKError] and its
    [toResponse]) is not among the sources.  The specification gives the
    outcome: a validation failure is answered with HTTP 400 and a structured
    error body, an unauthenticated caller with HTTP 401. *)
Definition ChatSDKError_toResponse (code : ErrorCode) : Response :=
  match code with
  | bad_request_api => {| statusCode := 400; body := ErrorBody bad_request_api |}
  | unauthorized_chat => {| statusCode := 401; body := ErrorBody unauthorized_chat |}
  end.

(** What the handler did besides answering. *)
Inductive Effect : Type :=
| AuthConsulted
| StreamOpened
| StageInvoked (c : ModelCall).

Record Handled : Type := mkHandled {
  response : Response;
  effects : list Effect
}.

Section WithEnvironment.

Variable isUuid : string → bool.
Variable newURL : string → Result URL.
Variable provider : Provider.
(** What [auth()] returns for the caller. *)
Variable auth : option Session.

Definition POST (request : Request) : Handled :=
  (* try { requestBody = schema.parse(await request.json()) } catch { ... } *)
  match j ← json request; researchRequestSchema_parse isUuid j with
  | Raise _ =>
      {| response := ChatSDKError_toResponse bad_request_api; effects := [] |}
  | Ok requestBody =>
      match auth ≫= user with
      | None =>
          {| response := ChatSDKError_toResponse unauthorized_chat;
             effects := [AuthConsulted] |}
      | Some _ =>
          let '(stream, stages) :=
            createUIMessageStream (execute newURL provider (query requestBody)) in
          {| response := {| statusCode := 200; body := StreamBody stream |};
             effects := AuthConsulted :: StreamOpened :: map StageInvoked stages |}
      end
  end.

End WithEnvironment.

(** *** Vocabulary of the statements *)

(** The discrete events of the protocol. *)
Inductive EventType : Type :=
| Status (phase : string)
| QueryRewritten
| SearchResults
| Sources
| SynthesisStart
| Complete.

Definition eventType (c : UIChunk) : option EventType :=
  match c with
  | DataPart d =>
      if String.eqb (type d) "data-research-status" then
        match data d with
        | JStr phase => Some (Status phase)
        | _ => None
        end
      else if String.eqb (type d) "data-research-query-rewritten" then Some QueryRewritten
      else if String.eqb (type d) "data-research-search-results" then Some SearchResults
      else if String.eqb (type d) "data-research-sources" then Some Sources
      else if String.eqb (type d) "data-research-synthesis-start" then Some SynthesisStart
      else if String.eqb (type d) "data-research-complete" then Some Complete
      else None
  | _ => None
  end.

Definition isToken (c : UIChunk) : bool :=
  match c with
  | TextDelta _ => true
  | _ => false
  end.

(** The chunks received before the first synthesis token. *)
Fixpoint beforeFirstToken (ch : list UIChunk) : list UIChunk :=
  match ch with
  | [] => []
  | c :: ch' => if isToken c then [] else c :: beforeFirstToken ch'
  end.

(** The event types received before the first synthesis token. *)
Definition eventsBeforeTokens (ch : list UIChunk) : list EventType :=
  omap eventType (beforeFirstToken ch).

(** The seven stage events, in the order of the specification. *)
Definition stageEvents : list EventType :=
  [ Status "rewriting-query"; QueryRewritten; Status "searching"; SearchResults;
    Sources; Status "synthesizing"; SynthesisStart ].

Definition isTerminalEvent (c : UIChunk) : Prop :=
  eventType c = Some (Status "complete") ∨ eventType c = Some Complete.

(** The terminal pair comes only after the last token: every token precedes
    every terminal event. *)
Definition terminalAfterTokens (ch : list UIChunk) : Prop :=
  ∀ (i j : nat) (t : string) (c : UIChunk),
    ch !! i = Some (TextDelta t) → ch !! j = Some c → isTerminalEvent c → i < j.

(** The three stage invocations, as [execute] builds them. *)
Definition rewriteCall (query : string) : ModelCall :=
  {| model := QueryRewriterModel; system := Some prompts.queryRewriter; prompt := query |}.

Definition searchCall (rewrittenQuery : string) : ModelCall :=
  {| model := WebSearchModel; system := None;
     prompt := prompts.webSearch +:+ " " +:+ rewrittenQuery |}.

Definition synthesisCall (query rewrittenQuery searchContent : string)
  (sources : list ResearchSource) : ModelCall :=
  {| model := SynthesisModel; system := Some prompts.synthesis;
     prompt := synthesisPrompt query rewrittenQuery searchContent sources |}.

(** The parts written while stages 1 and 2 run and stage 3 is announced. *)
Definition stageParts (rewrittenQuery searchContent : string)
  (sources : list ResearchSource) : list UIChunk :=
  [ DataPart (statusPart "rewriting-query");
    DataPart {| type := "data-research-query-rewritten"; data := JStr rewrittenQuery |};
    DataPart (statusPart "searching");
    DataPart {| type := "data-research-search-results"; data := JStr searchContent |};
    DataPart {| type := "data-research-sources"; data := sourcesToJson sources |};
    DataPart (statusPart "synthesizing");
    DataPart {| type := "data-research-synthesis-start"; data := JNull |} ].

Definition terminalParts : list UIChunk :=
  [ DataPart (statusPart "complete");
    DataPart {| type := "data-research-complete"; data := JNull |} ].

(** The request body is acceptable: an object whose id and chatId are UUID
    strings and whose query is a string of 1 to 2000 characters. *)
Definition isUuidString (isUuid : string → bool) (v : option JValue) : bool :=
  match v with
  | Some (JStr s) => isUuid s
  | _ => false
  end.

Definition isStringOfLength (lo hi : nat) (v : option JValue) : bool :=
  match v with
  | Some (JStr s) => (lo <=? String.length s)%nat && (String.length s <=? hi)%nat
  | _ => false
  end.

Definition validBody (isUuid : string → bool) (j : JValue) : bool :=
  match j with
  | JObj fields =>
      isUuidString isUuid (property "id" fields)
      && isStringOfLength 1 2000 (property "query" fields)
      && isUuidString isUuid (property "chatId" fields)
  | _ => false
  end.

Definition validRequest (isUuid : string → bool) (request : Request) : bool :=
  match json request with
  | Ok j => validBody isUuid j
  | Raise _ => false
  end.

Definition stageRan (h : Handled) : Prop := ∃ c, StageInvoked c ∈ effects h.

Definition isStream (r : Response) : Prop := ∃ chunks, body r = StreamBody chunks.

(** *** Concrete runs *)

Module Sample.

(** Stand-ins for the runtime's URL parser and the validator's UUID pattern,
    enough to evaluate the handler on the requests below. *)
Definition newURL (u : string) : Result URL :=
  if String.eqb u "https://x.com" then Ok {| hostname := "x.com" |}
  else Raise (mkError "Invalid URL").

Definition isHex (a : ascii) : bool :=
  let n := nat_of_ascii a in
  ((48 <=? n) && (n <=? 57) || (97 <=? n) && (n <=? 102) || (65 <=? n) && (n <=? 70))%nat.

Fixpoint hasShape (groups : list nat) (s : list ascii) : bool :=
  match groups with
  | [] => match s with [] => true | _ => false end
  | g :: groups' =>
      forallb isHex (take g s) && (length (take g s) =? g)%nat &&
      match groups', drop g s with
      | [], [] => true
      | _ :: _, "-"%char :: s' => hasShape groups' s'
      | _, _ => false
      end
  end.

Definition isUuid (s : string) : bool :=
  hasShape [8; 4; 4; 4; 12]%nat (list_ascii_of_string s).

Definition body (query : string) : JValue :=
  JObj [ ("id", JStr "123e4567-e89b-42d3-a456-426614174000");
         ("query", JStr query);
         ("chatId", JStr "123e4567-e89b-42d3-a456-426614174001") ].

Definition signedIn : option Session := Some {| user := Some {| user_id := "u1" |} |}.

Definition texts (c : ModelCall) : Result string :=
  match model c with
  | QueryRewriterModel => Ok "recent quantum computing breakthroughs"
  | _ => Ok "Error correction improved, see [A](https://x.com)."
  end.

(** All three stages succeed. *)
Definition working : Provider :=
  {| generateText := texts;
     streamText := λ _, Ok {| tokens := ["Hello"; " world"]; failure := None |} |}.

(** Stages 1 and 2 succeed; the synthesis model fails before it has produced
    a token. *)
Definition synthesisFails : Provider :=
  {| generateText := texts;
     streamText := λ _, Ok {| tokens := [];
                              failure := Some (mkError "provider unavailable") |} |}.

(** Stage 1 succeeds; the search call fails. *)
Definition searchFails : Provider :=
  {| generateText := λ c,
       match model c with
       | QueryRewriterModel => Ok "recent quantum computing breakthroughs"
       | _ => Raise (mkError "provider unavailable")
       end;
     streamText := λ _, Ok {| tokens := ["Hello"]; failure := None |} |}.

Definition query : string := "quantum computing breakthroughs".

End Sample.

End Orchestrator.


(** ** The client's view of a run

    The stream's data parts are handed to [handleResearchData] one at a
    time, in arrival order; text deltas and error frames take another path. *)

Module Client.

Definition dataParts (ch : list Orchestrator.UIChunk) : list Delta :=
  omap (λ c, match c with
             | Orchestrator.DataPart d => Some d
             | _ => None
             end) ch.

(** The state of the reducer once the whole stream of a run has arrived. *)
Definition finalState (newURL : string → Result URL)
  (provider : Orchestrator.Provider) (query : string) : Reducer.ResearchState :=
  Reducer.reached
    (dataParts (fst (Orchestrator.createUIMessageStream
                       (Orchestrator.execute newURL provider query)))).

(** The payload of the last delta of type [ty], if one arrived. *)
Fixpoint lastData (ty : string) (ds : list Delta) : option JValue :=
  match ds with
  | [] => None
  | d :: ds' =>
      match lastData ty ds' with
      | Some v => Some v
      | None => if String.eqb (type d) ty then Some (data d) else None
      end
  end.

(** Two deltas touch the same part of the state: they have the same type, or
    one is a status and the other a complete event (both set [isActive]). *)
Definition clash (d1 d2 : Delta) : bool :=
  String.eqb (type d1) (type d2)
  || (String.eqb (type d1) "data-research-status"
      && String.eqb (type d2) "data-research-complete")
  || (String.eqb (type d1) "data-research-complete"
      && String.eqb (type d2) "data-research-status").

End Client.

(** ** Vocabulary for the statements about extracted sources *)

Module Links.

(** The markdown link a source record stands for. *)
Definition markup (s : ResearchSource) : string :=
  "[" +:+ title s +:+ "](" +:+ url s +:+ ")".

Definition matchMarkup (m : Extractor.Match) : string :=
  "[" +:+ Extractor.m_title m +:+ "](" +:+ Extractor.m_url m +:+ ")".

Definition occursIn (needle text : string) : Prop :=
  ∃ pre post, text = pre +:+ needle +:+ post.

Definition free_of (c : ascii) (s : string) : Prop :=
  ∀ a, a ∈ list_ascii_of_string s → a ≠ c.

End Links.

(** ** Vocabulary for the statements about accepted requests *)

Module Wire.

(** A parsed request written back as a JSON body. *)
Definition requestToJson (r : Orchestrator.ResearchRequest) : JValue :=
  JObj [ ("id", JStr (Orchestrator.id r));
         ("query", JStr (Orchestrator.query r));
         ("chatId", JStr (Orchestrator.chatId r)) ].

End Wire.

(** ** File upload route ([app/(chat)/api/files/upload/route.ts]) *)

Module Upload.

(** What the handler reads of an uploaded [File]. *)
Record File : Type := mkFile {
  file_name : string;
  file_type : string;
  file_size : N
}.

(** [formData.get("file")]: a form field is a string or a file. *)
Inductive FormEntry : Type :=
| TextEntry (value : string)
| FileEntry (f : File).

(** [5 * 1024 * 1024] *)
Definition maxSize : N := 5 * 1024 * 1024.

Definition acceptedTypes : list string := ["image/jpeg"; "image/png"].

Inductive SafeParse : Type :=
| Success (f : File)
| Failure (messages : list string).

(** [str.split(".")] *)
Fixpoint split_dot (s : string) : list string :=
  match s with
  | EmptyString => [EmptyString]
  | String c s' =>
      if Ascii.eqb c "." then EmptyString :: split_dot s'
      else match split_dot s' with
           | seg :: rest => String c seg :: rest
           | [] => [String c EmptyString]
           end
  end.

(** [originalFilename.split(".").pop() || "bin"] *)
Definition extension (originalFilename : string) : string :=
  match last (split_dot originalFilename) with
  | Some (String c e) => String c e
  | _ => "bin"
  end.

Definition quote : string := String (ascii_of_nat 34) EmptyString.

Inductive Body : Type :=
| JsonError (error : string)
| Text (text : string)
| JsonUploaded (url pathname contentType contentDisposition : string).

Record Response : Type := mkResponse {
  status : nat;
  body : Body
}.

(** The calls the handler makes on its surroundings.  [WriteFileCalled] has
    the file name joined to the uploads directory and the bytes. *)
Inductive Effect : Type :=
| AuthCalled
| FormDataRead
| MkdirCalled
| WriteFileCalled (name : string) (content : string).

Record Handled : Type := mkHandled {
  response : Response;
  effects : list Effect
}.

(** What the surroundings answer during one request. *)
Record World : Type := mkWorld {
  session : option Orchestrator.Session;   (* await auth() *)
  bodyIsNull : bool;                       (* request.body === null *)
  formFile : Result (option FormEntry);    (* (await request.formData()).get("file") *)
  dirExists : bool;                        (* existsSync(UPLOADS_DIR) *)
  mkdir : Result unit;                     (* await mkdir(UPLOADS_DIR, ...) *)
  uuid : string;                           (* generateUUID() *)
  arrayBuffer : Result string;             (* await file.arrayBuffer() *)
  writeFile : Result unit                  (* await writeFile(filePath, ...) *)
}.

Section WithValidator.

(** The messages of the issues the validator raises for a value that is not
    a [Blob]; their wording is the validation library's. *)
Variable notBlobMessages : list string.

(** [FileSchema.safeParse({ file })]: the two refinements are both evaluated,
    and each one that fails adds its message. *)
Definition FileSchema_safeParse (e : FormEntry) : SafeParse :=
  match e with
  | TextEntry _ => Failure notBlobMessages
  | FileEntry f =>
      match (if (file_size f <=? maxSize)%N then []
             else ["File size should be less than 5MB"]) ++
            (if bool_decide (file_type f ∈ acceptedTypes) then []
             else ["File type should be JPEG or PNG"]) with
      | [] => Success f
      | messages => Failure messages
      end
  end.

(** The [catch] block. *)
Definition failed (log : list Effect) : Handled :=
  {| response := {| status := 500; body := JsonError "Failed to process request" |};
     effects := log |}.

Definition POST (w : World) : Handled :=
  match session w with
  | None =>
      {| response := {| status := 401; body := JsonError "Unauthorized" |};
         effects := [AuthCalled] |}
  | Some _ =>
      if bodyIsNull w then
        {| response := {| status := 400; body := Text "Request body is empty" |};
           effects := [AuthCalled] |}
      else
        (* try *)
        match formFile w with
        | Raise _ => failed [AuthCalled; FormDataRead]
        | Ok None | Ok (Some (TextEntry EmptyString)) =>
            {| response := {| status := 400; body := JsonError "No file uploaded" |};
               effects := [AuthCalled; FormDataRead] |}
        | Ok (Some file) =>
            match FileSchema_safeParse file with
            | Failure messages =>
                {| response := {| status := 400;
                                  body := JsonError (String.concat ", " messages) |};
                   effects := [AuthCalled; FormDataRead] |}
            | Success f =>
                (* Ensure uploads directory exists *)
                let log := AuthCalled :: FormDataRead ::
                           (if dirExists w then [] else [MkdirCalled]) in
                match (if dirExists w then Ok () else mkdir w) with
                | Raise _ => failed log
                | Ok _ =>
                    let originalFilename := file_name f in
                    let uniqueFilename :=
                      uuid w +:+ "." +:+ extension originalFilename in
                    match arrayBuffer w with
                    | Raise _ => failed log
                    | Ok fileBuffer =>
                        let log := log ++ [WriteFileCalled uniqueFilename fileBuffer] in
                        match writeFile w with
                        | Raise _ => failed log
                        | Ok _ =>
                            {| response :=
                                 {| status := 200;
                                    body := JsonUploaded
                                      ("/uploads/" +:+ uniqueFilename)
                                      uniqueFilename
                                      (file_type f)
                                      ("attachment; filename=" +:+ quote +:+
                                       originalFilename +:+ quote) |};
                               effects := log |}
                        end
                    end
                end
            end
        end
  end.

End WithValidator.

(** A file the schema lets through. *)
Definition acceptable (f : File) : Prop :=
  (file_size f ≤ maxSize)%N ∧ file_type f ∈ acceptedTypes.

(** Everything an upload needs goes well: a session, a body, an acceptable
    file in the form, the uploads directory there or created, the bytes read
    and the file written. *)
Definition uploadable (w : World) (f : File) (content : string) : Prop :=
  is_Some (session w) ∧
  bodyIsNull w = false ∧
  formFile w = Ok (Some (FileEntry f)) ∧
  acceptable f ∧
  (dirExists w = true ∨ mkdir w = Ok ()) ∧
  arrayBuffer w = Ok content ∧
  writeFile w = Ok ().

Definition written (h : Handled) : Prop :=
  ∃ name content, WriteFileCalled name content ∈ effects h.

Module Sample.

Definition photo : File :=
  {| file_name := "holiday.photo.png"; file_type := "image/png"; file_size := 2048 |}.

Definition notes : File :=
  {| file_name := "notes.txt"; file_type := "text/plain"; file_size := 6000000 |}.

Definition world (f : File) : World :=
  {| session := Some {| Orchestrator.user := None |};
     bodyIsNull := false;
     formFile := Ok (Some (FileEntry f));
     dirExists := false;
     mkdir := Ok ();
     uuid := "1b4e28ba-2fa1-41d2-883f-0016d3cca427";
     arrayBuffer := Ok "bytes";
     writeFile := Ok () |}.

End Sample.

End Upload.

(** ** Model routing ([lib/ai/providers.ts]) *)

Module Providers.

(** [lib/ai/research/config.ts]: researchConfig.models *)
Module researchConfig.
Definition queryRewriter : string := "openai/gpt-oss-20b".
Definition webSearch : string := "groq/compound".
Definition synthesis : string := "openai/gpt-oss-120b".
End researchConfig.

(** What is read of the process environment when the module is loaded:
    [isTestEnvironment] and [Boolean(process.env.AI_GATEWAY_API_KEY)].
    [myProvider] is the mock provider in the test environment and [null]
    otherwise, so [isTestEnvironment && myProvider] is [isTestEnvironment]. *)
Record Env : Type := mkEnv {
  isTestEnvironment : bool;
  hasGatewayKey : bool
}.

(** Where a model is taken from, and under which id. *)
Inductive LanguageModel : Type :=
| MockModel (modelId : string)        (* myProvider.languageModel(modelId) *)
| GroqModel (modelId : string)        (* groq(modelId) *)
| GatewayModel (modelId : string)     (* gateway.languageModel(modelId) *)
| ReasoningModel (gatewayModelId : string).
    (* the gateway model wrapped with extractReasoningMiddleware *)

Definition DEFAULT_GROQ_FALLBACK : string := "llama-3.3-70b-versatile".

Definition GROQ_MODELS : list string :=
  [ "groq/compound"; "groq/compound-mini"; "openai/gpt-oss-120b";
    "openai/gpt-oss-20b"; "moonshotai/kimi-k2-instruct" ].

(** [s.includes(needle)] *)
Fixpoint includes (needle s : string) : bool :=
  String.prefix needle s ||
  match s with
  | EmptyString => false
  | String _ s' => includes needle s'
  end.

(** [s.endsWith(suffix)] *)
Fixpoint endsWith (suffix s : string) : bool :=
  String.eqb s suffix ||
  match s with
  | EmptyString => false
  | String _ s' => endsWith suffix s'
  end.

(** [s.replace(/suffix$/, "")] for a literal, non-empty suffix: the text
    without that ending, or the text itself when it does not end so. *)
Fixpoint removeSuffix (suffix s : string) : string :=
  if String.eqb s suffix then EmptyString
  else match s with
       | EmptyString => EmptyString
       | String c s' => String c (removeSuffix suffix s')
       end.

Definition getLanguageModel (env : Env) (modelId : string) : LanguageModel :=
  if isTestEnvironment env then MockModel modelId
  (* Route Groq models through Groq API (keep full model ID) *)
  else if bool_decide (modelId ∈ GROQ_MODELS) then GroqModel modelId
  (* If no gateway key, route everything through Groq *)
  else if negb (hasGatewayKey env) then GroqModel DEFAULT_GROQ_FALLBACK
  else
    let isReasoningModel :=
      includes "reasoning" modelId || endsWith "-thinking" modelId in
    if isReasoningModel then ReasoningModel (removeSuffix "-thinking" modelId)
    else GatewayModel modelId.

Definition getTitleModel (env : Env) : LanguageModel :=
  if isTestEnvironment env then MockModel "title-model"
  else GroqModel "llama-3.1-8b-instant".

Definition getArtifactModel (env : Env) : LanguageModel :=
  if isTestEnvironment env then MockModel "artifact-model"
  else GroqModel "openai/gpt-oss-20b".

Definition getQueryRewriterModel : LanguageModel :=
  GroqModel researchConfig.queryRewriter.

Definition getWebSearchModel : LanguageModel :=
  GroqModel researchConfig.webSearch.

Definition getSynthesisModel : LanguageModel :=
  GroqModel researchConfig.synthesis.

Definition viaGateway (m : LanguageModel) : option string :=
  match m with
  | GatewayModel g | ReasoningModel g => Some g
  | _ => None
  end.

End Providers.

(** ** Document editor ([lib/editor/config.ts]) *)

Module Editor.

(** A child of a table cell: a text node with its text, or another node. *)
Inductive Child : Type :=
| TextChild (text : string)
| OtherChild.

(** The calls the table serializer makes on the serializer state. *)
Inductive StateCall : Type :=
| Write (content : string)
| CloseBlock.

Definition nl : string := String (ascii_of_nat 10) EmptyString.

(** [c || " "] *)
Definition orSpace (c : string) : string :=
  match c with
  | EmptyString => " "
  | _ => c
  end.

(** ["| " + row.map((c) => c || " ").join(" | ") + " |\n"] *)
Definition rowLine (cells : list string) : string :=
  "| " +:+ String.concat " | " (map orSpace cells) +:+ " |" +:+ nl.

(** [Math.max(...rows.map((r) => r.length))], for at least one row *)
Definition colCount (rows : list (list string)) : nat :=
  foldr Nat.max 0 (map length rows).

(** ["| " + Array(colCount).fill("---").join(" | ") + " |\n"] *)
Definition separatorLine (n : nat) : string :=
  "| " +:+ String.concat " | " (repeat "---" n) +:+ " |" +:+ nl.

Section WithSerializer.

(** [defaultMarkdownSerializer.serialize(cell)] and [String.prototype.trim],
    one the library's, the other the runtime's. *)
Variable serialize : list Child → string.
Variable trim : string → string.

(** The text gathered for one cell: the inner [cell.forEach]. *)
Definition cellText (cell : list Child) : string :=
  foldl (λ acc child,
           acc +:+ match child with
                   | TextChild text => text
                   | OtherChild => serialize cell
                   end)
        EmptyString cell.

(** The nested [forEach] loops: a table is its rows, a row its cells. *)
Definition rowsOf (node : list (list (list Child))) : list (list string) :=
  map (map (λ cell, trim (cellText cell))) node.

(** The [table] entry of the markdown serializer. *)
Definition table (node : list (list (list Child))) : list StateCall :=
  let rows := rowsOf node in
  match rows with
  | [] => []                                   (* if (rows.length === 0) return *)
  | headerRow :: dataRows =>
      Write (rowLine headerRow) ::
      Write (separatorLine (colCount rows)) ::
      map (λ row, Write (rowLine row)) dataRows ++
      [CloseBlock]
  end.

End WithSerializer.

(** *** [headingRule] *)

(** The class [\s] on the code units a string here can hold: tab, line feed,
    vertical tab, form feed, carriage return, space, no-break space. *)
Definition isSpace (a : ascii) : bool :=
  bool_decide (nat_of_ascii a ∈ [9; 10; 11; 12; 13; 32; 160]%nat).

(** The run of [#] at the start of a text, and what follows it. *)
Fixpoint hashes (s : string) : nat * string :=
  match s with
  | String "#" s' => let '(k, rest) := hashes s' in (S k, rest)
  | _ => (O, s)
  end.

(** [^(#{1,level})\s$]: the quantifier takes as many [#] as it may; taking
    fewer never helps, the next character would be a [#], not a space. *)
Definition headingPattern (level : nat) (text : string) : bool :=
  let '(k, rest) := hashes text in
  (1 <=? k)%nat && (k <=? level)%nat &&
  match rest with
  | String c EmptyString => isSpace c
  | _ => false
  end.

(** The input rule: its pattern and the level given to the heading. *)
Record HeadingRule : Type := mkHeadingRule {
  pattern : string → bool;
  headingLevel : nat
}.

(** [headingRule(level)].  For level 0 the quantifier [{1,0}] is out of
    order and the [RegExp] constructor throws. *)
Definition headingRule (level : nat) : Result HeadingRule :=
  match level with
  | O => Raise (mkError "Invalid regular expression")
  | S _ => Ok {| pattern := headingPattern level; headingLevel := level |}
  end.

Definition hashRun (k : nat) : string := string_of_list_ascii (repeat "#"%char k).

(** A written table line: it opens with a pipe and a space and closes with
    a space, a pipe and a line feed. *)
Definition isLine (c : StateCall) : Prop :=
  ∃ mid, c = Write ("| " +:+ mid +:+ " |" +:+ nl).

End Editor.

(** ** The link pattern, stated on its own

    What [urlRegex] accepts and how [matchAll] walks the text, written as
    relations that do not mention the scanner of [Extractor]. *)

Module LinkPattern.
Import Extractor.

(** A link starts the text [s]: an opening bracket, a non-empty title free
    of [']'], [](], a url made of [http://] or [https://] and a non-empty
    tail free of [')'], a closing parenthesis, then [rest]. *)
Definition LinkAt (s : string) (m : Match) (rest : string) : Prop :=
  ∃ sch tail,
    s = "[" +:+ m_title m +:+ "](" +:+ m_url m +:+ ")" +:+ rest ∧
    m_url m = sch +:+ tail ∧ (sch = "http://" ∨ sch = "https://") ∧
    m_title m ≠ "" ∧ tail ≠ "" ∧
    Links.free_of "]" (m_title m) ∧ Links.free_of ")" tail.

(** The matches of a text, from left to right: where a link starts it is
    taken and the scan goes on after it; elsewhere one character is
    skipped. *)
Inductive Scans : string → list Match → Prop :=
| scans_end : Scans "" []
| scans_link (s : string) (m : Match) (rest : string) (ms : list Match) :
    LinkAt s m rest → Scans rest ms → Scans s (m :: ms)
| scans_skip (c : ascii) (s : string) (ms : list Match) :
    (∀ m rest, ¬ LinkAt (String c s) m rest) → Scans s ms →
    Scans (String c s) ms.

End LinkPattern.

(** * Properties *)

(** ** Client reducer *)

Module ReducerFacts.
Import Reducer.

Lemma eqb_type_true (d : Delta) (s : string) : String.eqb (type d) s = true ↔ type d = s.
Proof. apply String.eqb_eq. Qed.

Lemma eqb_type_false (d : Delta) (s : string) : String.eqb (type d) s = false ↔ type d ≠ s.
Proof. apply String.eqb_neq. Qed.

(** The five branches and the default, one equation each. *)
Lemma handle_status (v : JValue) (st : ResearchState) :
  handleResearchData (statusDelta v) st =
  {| status := v;
     rewrittenQuery := rewrittenQuery st;
     searchResults := searchResults st;
     sources := sources st;
     isActive := strict_neq_str v "complete" && strict_neq_str v "error" |}.
Proof. reflexivity. Qed.

Lemma handle_is_status (d : Delta) (st : ResearchState) :
  is_status d → handleResearchData d st = handleResearchData (statusDelta (data d)) st.
Proof. destruct d as [t v]. unfold is_status. simpl. intros ->. reflexivity. Qed.

Lemma handle_is_complete (d : Delta) (st : ResearchState) :
  is_complete d →
  handleResearchData d st =
  {| status := status st;
     rewrittenQuery := rewrittenQuery st;
     searchResults := searchResults st;
     sources := sources st;
     isActive := false |}.
Proof. destruct d as [t v]. unfold is_complete. simpl. intros ->. reflexivity. Qed.

(** A delta that is neither a status nor a complete event leaves [isActive]
    as it was. *)
Lemma handle_other_isActive (d : Delta) (st : ResearchState) :
  ¬ is_status d → ¬ is_complete d →
  isActive (handleResearchData d st) = isActive st.
Proof.
  unfold is_status, is_complete, handleResearchData. intros Hs Hc.
  repeat match goal with
  | |- context [String.eqb (type d) ?s] =>
      destruct (String.eqb (type d) s) eqn:E;
      [ apply eqb_type_true in E; try congruence; try reflexivity | clear E ]
  end.
  reflexivity.
Qed.

Lemma nonterminal_iff (v : JValue) :
  strict_neq_str v "complete" && strict_neq_str v "error" = true ↔ ¬ terminal v.
Proof.
  unfold terminal. split.
  - intros H [-> | ->]; discriminate H.
  - intros H. destruct v as [| | |s| |]; try reflexivity. simpl.
    destruct (String.eqb s "complete") eqn:E1.
    { apply String.eqb_eq in E1. subst. exfalso. apply H. by left. }
    destruct (String.eqb s "error") eqn:E2.
    { apply String.eqb_eq in E2. subst. exfalso. apply H. by right. }
    reflexivity.
Qed.

Lemma terminal_iff (v : JValue) :
  strict_neq_str v "complete" && strict_neq_str v "error" = false ↔ terminal v.
Proof.
  rewrite <- not_true_iff_false, nonterminal_iff. unfold terminal. split.
  - intros H. destruct v as [| | |s| |];
      try (exfalso; apply H; intros [? | ?]; discriminate).
    destruct (decide (s = "complete")) as [-> | ?]; [by left |].
    destruct (decide (s = "error")) as [-> | ?]; [by right |].
    exfalso. apply H. intros [[= ->] | [= ->]]; done.
  - tauto.
Qed.

Lemma status_not_complete (d : Delta) : is_status d → ¬ is_complete d.
Proof. unfold is_status, is_complete. intros -> ?. discriminate. Qed.

Lemma feed_snoc (ds : list Delta) (e : Delta) (st : ResearchState) :
  feed (ds ++ [e]) st = handleResearchData e (feed ds st).
Proof. unfold feed. by rewrite foldl_app. Qed.

Lemma reached_snoc (ds : list Delta) (e : Delta) :
  reached (ds ++ [e]) = handleResearchData e (reached ds).
Proof. apply feed_snoc. Qed.

Lemma active_history_snoc_inv (ds : list Delta) (e : Delta) :
  active_history (ds ++ [e]) →
  (is_status e ∧ ¬ terminal (data e)) ∨
  (¬ is_status e ∧ ¬ is_complete e ∧ active_history ds).
Proof.
  intros (pre & d & post & Heq & Hs & Hn & Hpost).
  destruct (decide (post = [])) as [-> | Hne].
  - apply app_inj_tail in Heq as [_ <-]. by left.
  - destruct (exists_last Hne) as (post' & e' & ->).
    rewrite app_comm_cons, app_assoc in Heq.
    apply app_inj_tail in Heq as [-> <-].
    apply Forall_app in Hpost as [Hpost' He].
    apply Forall_singleton in He as [He1 He2].
    right. split_and!; [done | done |].
    by exists pre, d, post'.
Qed.

Lemma isActive_reached (ds : list Delta) :
  isActive (reached ds) = true ↔ active_history ds.
Proof.
  induction ds as [| e ds IH] using rev_ind.
  - split; [discriminate |].
    intros (pre & d & post & Heq & _). by destruct pre.
  - rewrite reached_snoc.
    destruct (decide (is_status e)) as [Hs | Hs].
    + rewrite (handle_is_status _ _ Hs), handle_status. simpl.
      rewrite nonterminal_iff. split.
      * intros Hn. exists ds, e, []. by split_and!.
      * intros [[_ Hn] | [Hns _]]%active_history_snoc_inv; done.
    + destruct (decide (is_complete e)) as [Hc | Hc].
      * rewrite (handle_is_complete _ _ Hc). simpl. split; [discriminate |].
        intros [[? _] | (_ & ? & _)]%active_history_snoc_inv; done.
      * rewrite (handle_other_isActive _ _ Hs Hc), IH. split.
        -- intros (pre & d & post & -> & Hd & Hn & Hpost).
           exists pre, d, (post ++ [e]). split_and!; try done.
           ++ by rewrite <- app_assoc.
           ++ apply Forall_app. split; [done |]. by apply Forall_singleton.
        -- intros [[? _] | (_ & _ & ?)]%active_history_snoc_inv; done.
Qed.

(** C5. For every state reachable from the initial state by a sequence of
    events, [isActive] is true exactly when a status event has been applied
    whose value is neither complete nor error and since which neither
    another status event nor a complete event has been applied; and from a
    reachable state where [isActive] is true, the next event turns it false
    exactly when it is a status event carrying complete or error, or the
    complete event. *)
Theorem isActive_invariant :
  ∀ ds : list Delta,
    (isActive (reached ds) = true ↔ active_history ds) ∧
    (∀ e : Delta,
       isActive (reached ds) = true →
       (isActive (reached (ds ++ [e])) = false ↔
        (is_status e ∧ terminal (data e)) ∨ is_complete e)).
Proof.
  intros ds. split; [apply isActive_reached |].
  intros e Hact. rewrite reached_snoc.
  destruct (decide (is_status e)) as [Hs | Hs].
  - rewrite (handle_is_status _ _ Hs), handle_status. simpl.
    rewrite terminal_iff. pose proof (status_not_complete _ Hs). tauto.
  - destruct (decide (is_complete e)) as [Hc | Hc].
    + rewrite (handle_is_complete _ _ Hc). simpl. split; [by right | done].
    + rewrite (handle_other_isActive _ _ Hs Hc), Hact. split; [discriminate |].
      intros [[? _] | ?]; done.
Qed.

(** C7. The reducer is total over event types: for every state, a delta
    whose type is none of the recognized research event types returns the
    state with every field unchanged. *)
Theorem handleResearchData_unrecognized :
  ∀ (d : Delta) (st : ResearchState),
    type d ∉ recognized → handleResearchData d st = st.
Proof.
  intros d st Hnot. unfold handleResearchData.
  repeat match goal with
  | |- context [String.eqb (type d) ?s] =>
      destruct (String.eqb (type d) s) eqn:E;
      [ apply eqb_type_true in E; exfalso; apply Hnot; rewrite E;
        unfold recognized; set_solver
      | clear E ]
  end.
  reflexivity.
Qed.

Lemma handleResearchData_unrecognized_witness :
  handleResearchData {| type := "text-delta"; data := JStr "Hello" |}
    (reached [statusDelta (JStr "synthesizing")])
  = reached [statusDelta (JStr "synthesizing")].
Proof.
  apply handleResearchData_unrecognized.
  apply (bool_decide_unpack _). vm_compute. reflexivity.
Defined.

(** C8. After any sequence of events, from any state, [resetResearch] returns
    exactly the initial state: status null, rewrittenQuery null,
    searchResults null, sources empty, isActive false. *)
Theorem resetResearch_initial :
  ∀ (ds : list Delta) (st : ResearchState),
    resetResearch (feed ds st) = initialState ∧
    resetResearch (reached ds) =
      {| status := JNull; rewrittenQuery := JNull; searchResults := JNull;
         sources := JArr []; isActive := false |}.
Proof. intros ds st. split; reflexivity. Qed.

(** C10. The reducer does not make complete and error terminal: in every
    state, whatever its status and whether or not a complete event was
    applied, a status event replaces [status] with the incoming value and
    sets [isActive] from that value alone; a non-terminal phase such as
    searching sets it back to true. *)
Theorem status_event_ignores_prior_state :
  ∀ (st : ResearchState) (v : JValue),
    status (handleResearchData (statusDelta v) st) = v ∧
    isActive (handleResearchData (statusDelta v) st) =
      strict_neq_str v "complete" && strict_neq_str v "error" ∧
    (∀ st' : ResearchState,
       isActive (handleResearchData (statusDelta v) st') =
       isActive (handleResearchData (statusDelta v) st)) ∧
    isActive (handleResearchData (statusDelta (JStr "searching")) st) = true ∧
    (∀ ds : list Delta,
       reached (ds ++ [statusDelta (JStr "complete"); completeDelta;
                       statusDelta (JStr "searching")]) =
       {| status := JStr "searching";
          rewrittenQuery := rewrittenQuery (reached ds);
          searchResults := searchResults (reached ds);
          sources := sources (reached ds);
          isActive := true |}).
Proof.
  intros st v. split_and!; try reflexivity.
  intros ds. unfold reached, feed. rewrite foldl_app. reflexivity.
Qed.

End ReducerFacts.

(** ** Source extractor *)

Module ExtractorFacts.
Import Extractor.

(** *** The scanner *)

Lemma str_cons (a : ascii) (s t : string) : String a s +:+ t = String a (s +:+ t).
Proof. reflexivity. Qed.

Lemma str_nil (t : string) : "" +:+ t = t.
Proof. reflexivity. Qed.

Lemma str_assoc (s t u : string) : (s +:+ t) +:+ u = s +:+ t +:+ u.
Proof. induction s as [| a s IH]; [done |]. by rewrite !str_cons, IH. Qed.

Lemma span_until_app (c : ascii) (s : string) :
  s = fst (span_until c s) +:+ snd (span_until c s).
Proof.
  induction s as [| a s IH]; simpl; [done |].
  destruct (Ascii.eqb a c); [done |].
  destruct (span_until c s) as [run rest]. simpl in *.
  rewrite str_cons. by f_equal.
Qed.

Lemma span_until_free (c : ascii) (s : string) :
  ∀ a, a ∈ list_ascii_of_string (fst (span_until c s)) → a ≠ c.
Proof.
  induction s as [| b s IH]; simpl; intros a Ha.
  - by apply elem_of_nil in Ha.
  - destruct (Ascii.eqb b c) eqn:E; simpl in Ha.
    + by apply elem_of_nil in Ha.
    + destruct (span_until c s) as [run rest]. simpl in *.
      apply elem_of_cons in Ha as [-> | Ha]; [| by apply IH].
      by apply Ascii.eqb_neq.
Qed.

Lemma length_append (s t : string) :
  String.length (s +:+ t) = String.length s + String.length t.
Proof. induction s as [| a s IH]; [done |]. rewrite str_cons. simpl. by rewrite IH. Qed.

Lemma strip_prefix_app (p s rest : string) :
  strip_prefix p s = Some rest → s = p +:+ rest.
Proof.
  revert s. induction p as [| a p IH]; intros s; simpl.
  { intros [= ->]. by rewrite str_nil. }
  destruct s as [| b s]; [done |].
  destruct (Ascii.eqb a b) eqn:E; [| done].
  apply Ascii.eqb_eq in E as ->. intros H. by rewrite str_cons, <- (IH _ H).
Qed.

Lemma scheme_app (s sch rest : string) :
  scheme s = Some (sch, rest) →
  s = sch +:+ rest ∧ (sch = "http://" ∨ sch = "https://").
Proof.
  unfold scheme. intros H.
  destruct (strip_prefix "https://" s) as [r |] eqn:E1.
  { injection H as <- <-. split; [by apply strip_prefix_app | by right]. }
  destruct (strip_prefix "http://" s) as [r |] eqn:E2; [| done].
  injection H as <- <-. split; [by apply strip_prefix_app | by left].
Qed.

(** A successful match has the shape of the pattern: a bracketed title free
    of [']'], then a parenthesised url that starts with the scheme and is free
    of [')']. *)
Lemma matchAt_shape (s : string) (m : Match) (rest : string) :
  matchAt s = Some (m, rest) →
  ∃ sch tail,
    s = "[" +:+ m_title m +:+ "](" +:+ m_url m +:+ ")" +:+ rest ∧
    m_url m = sch +:+ tail ∧ (sch = "http://" ∨ sch = "https://") ∧
    m_title m ≠ "" ∧ tail ≠ "" ∧
    (∀ a, a ∈ list_ascii_of_string (m_title m) → a ≠ "]"%char) ∧
    (∀ a, a ∈ list_ascii_of_string tail → a ≠ ")"%char).
Proof.
  unfold matchAt. intros H.
  destruct s as [| a s1]; [done |].
  destruct (decide (a = "["%char)) as [-> | Hne].
  2: { destruct a as [[] [] [] [] [] [] [] []]; try done. }
  pose proof (span_until_app "]" s1) as Happ1.
  pose proof (span_until_free "]" s1) as Hfree1.
  destruct (span_until "]" s1) as [t s2]. simpl in *.
  destruct t as [| t0 t']; [done |].
  destruct s2 as [| b s2]; [done |].
  destruct (decide (b = "]"%char)) as [-> | Hne].
  2: { destruct b as [[] [] [] [] [] [] [] []]; try done. }
  destruct s2 as [| b s3]; [done |].
  destruct (decide (b = "("%char)) as [-> | Hne].
  2: { destruct b as [[] [] [] [] [] [] [] []]; try done. }
  destruct (scheme s3) as [[sch s4] |] eqn:Esch; [| done].
  apply scheme_app in Esch as [-> Hsch].
  pose proof (span_until_app ")" s4) as Happ2.
  pose proof (span_until_free ")" s4) as Hfree2.
  destruct (span_until ")" s4) as [tail s5]. simpl in *.
  destruct tail as [| u0 tail']; [done |].
  destruct s5 as [| b s6]; [done |].
  destruct (decide (b = ")"%char)) as [-> | Hne].
  2: { destruct b as [[] [] [] [] [] [] [] []]; try done. }
  injection H as <- <-. simpl.
  exists sch, (String u0 tail'). split_and!; try done.
  rewrite Happ1, Happ2.
  by rewrite ?str_assoc, ?str_cons, ?str_nil, ?str_assoc, ?str_cons, ?str_nil.
Qed.

Lemma matchAt_shorter (s : string) (m : Match) (rest : string) :
  matchAt s = Some (m, rest) → String.length rest < String.length s.
Proof.
  intros (sch & tail & -> & _)%matchAt_shape.
  rewrite !length_append. simpl. lia.
Qed.

(** The scan is a total function: any fuel from the length of the text up
    gives the same matches. *)
Lemma matchAll_from_enough (fuel fuel' : nat) (s : string) :
  (String.length s ≤ fuel)%nat → (String.length s ≤ fuel')%nat →
  matchAll_from fuel s = matchAll_from fuel' s.
Proof.
  revert fuel' s. induction fuel as [| fuel IH]; intros fuel' s H H'.
  - destruct s; [| simpl in H; lia]. by destruct fuel'.
  - destruct s as [| a s]; [by destruct fuel' |].
    destruct fuel' as [| fuel']; [simpl in H'; lia |].
    cbn [matchAll_from]. simpl in H, H'.
    destruct (matchAt (String a s)) as [[m rest] |] eqn:E.
    + apply matchAt_shorter in E. simpl in E. f_equal. apply IH; lia.
    + apply IH; lia.
Qed.

Lemma matchAll_from_fuel (fuel : nat) (s : string) :
  (String.length s ≤ fuel)%nat → matchAll_from fuel s = matchAll s.
Proof. intros H. by apply matchAll_from_enough. Qed.

Lemma matchAll_scheme (s : string) (m : Match) :
  m ∈ matchAll s →
  ∃ sch tail, m_url m = sch +:+ tail ∧ (sch = "http://" ∨ sch = "https://").
Proof.
  unfold matchAll. generalize (String.length s) as fuel. intros fuel. revert s.
  induction fuel as [| fuel IH]; intros s; simpl.
  - by intros ?%elem_of_nil.
  - destruct s as [| a s]; [by intros ?%elem_of_nil |].
    destruct (matchAt (String a s)) as [[m' rest] |] eqn:E; [| apply IH].
    intros [-> | Hin]%elem_of_cons; [| by eapply IH].
    apply matchAt_shape in E as (sch & tail & _ & ? & ? & _). by exists sch, tail.
Qed.

(** *** The loop against the reference algorithm *)

Section Refinement.

Variable newURL : string → Result URL.

Lemma forOf_reference (ms : list Match) :
  ∀ (acc : list ResearchSource) (S : gset string) (E : list string),
    agree newURL S E →
    ∃ S', forOf newURL ms {| sources := acc; seen := S |} =
          Ok {| sources := acc ++ firstSightings E (omap (parsed newURL) ms);
                seen := S' |}.
Proof.
  induction ms as [| m ms IH]; intros acc S E [Hsub Hrej].
  - exists S. simpl. by rewrite app_nil_r.
  - cbn [forOf omap list_omap]. unfold visit, parsed. cbn [seen sources].
    destruct (decide (m_url m ∈ S)) as [Hin | Hnin]; cbn [mbind Result_bind].
    + destruct (newURL (m_url m)) as [u | e] eqn:Eu; cbn [firstSightings url].
      * destruct (decide (m_url m ∈ E)) as [HE | HE]; [by apply IH |].
        destruct (Hrej _ Hin HE) as [e He]. congruence.
      * by apply IH.
    + assert (m_url m ∉ E) as HE by (intros ?; by apply Hnin, Hsub).
      destruct (newURL (m_url m)) as [u | e] eqn:Eu;
        cbn [try_catch mbind Result_bind firstSightings url].
      * destruct (decide (m_url m ∈ E)) as [? | _]; [done |].
        edestruct (IH (acc ++ [ {| title := m_title m; url := m_url m;
                                   domain := hostname u |} ])
                      (S ∪ {[ m_url m ]}) (m_url m :: E)) as [S' HS'].
        { split.
          - intros v [-> | Hv]%elem_of_cons; [set_solver |].
            apply elem_of_union. left. by apply Hsub.
          - intros v [Hv | Hv]%elem_of_union Hnot.
            + apply Hrej; [done |]. intros ?. apply Hnot. by right.
            + apply elem_of_singleton in Hv as ->. exfalso. apply Hnot. by left. }
        exists S'. rewrite HS'. by rewrite <- app_assoc.
      * apply IH. split.
        -- intros v Hv. apply elem_of_union. left. by apply Hsub.
        -- intros v [Hv | Hv]%elem_of_union Hnot; [by apply Hrej |].
           apply elem_of_singleton in Hv as ->. by exists e.
Qed.

Lemma firstSightings_fresh (l : list ResearchSource) :
  ∀ (E : list string),
    NoDup (map url (firstSightings E l)) ∧
    Forall (λ s, (url s ∉ E) ∧ (s ∈ l)) (firstSightings E l).
Proof.
  induction l as [| s l IH]; intros E; simpl.
  - split; constructor.
  - destruct (decide (url s ∈ E)) as [Hin | Hnin].
    + destruct (IH E) as [Hnd Hall]. split; [done |].
      eapply Forall_impl; [exact Hall |]. intros x [? ?]. split; [done | by right].
    + destruct (IH (url s :: E)) as [Hnd Hall]. split.
      * simpl. constructor; [| done].
        intros (x & Hx & Hxin)%list_elem_of_fmap.
        rewrite Forall_forall in Hall. destruct (Hall _ Hxin) as [Hfresh _].
        apply Hfresh. rewrite Hx. by left.
      * constructor; [split; [done | by left] |].
        eapply Forall_impl; [exact Hall |]. intros x [Hx ?]. split; [| by right].
        intros ?. apply Hx. by right.
Qed.

Lemma parsed_sound (m : Match) (s : ResearchSource) :
  parsed newURL m = Some s →
  title s = m_title m ∧ url s = m_url m ∧ newURL (url s) = Ok {| hostname := domain s |}.
Proof.
  unfold parsed. destruct (newURL (m_url m)) as [[h] | e] eqn:E; [| done].
  intros [= <-]. simpl. by rewrite E.
Qed.

Lemma extract_eq_reference (text : string) :
  extractSourcesFromContent newURL text = Ok (extractSources_reference newURL text).
Proof.
  unfold extractSourcesFromContent, extractSources_reference.
  destruct (forOf_reference (matchAll text) [] ∅ []) as [S' ->]; [| done].
  split; [by intros u ?%elem_of_nil | by intros u ?%elem_of_empty].
Qed.

End Refinement.

(** *** The scanner against the pattern *)

Import Links LinkPattern.

Lemma span_until_run (c : ascii) (run rest : string) :
  free_of c run → span_until c (run +:+ String c rest) = (run, String c rest).
Proof.
  induction run as [| a run IH]; intros Hfree.
  - rewrite str_nil. simpl. by rewrite Ascii.eqb_refl.
  - rewrite str_cons. simpl.
    assert (a ≠ c) as Hne by (apply Hfree; simpl; by left).
    apply Ascii.eqb_neq in Hne. rewrite Hne.
    rewrite IH; [done |]. intros b Hb. apply Hfree. simpl. by right.
Qed.

Lemma scheme_complete (sch x : string) :
  sch = "http://" ∨ sch = "https://" → scheme (sch +:+ x) = Some (sch, x).
Proof. intros [-> | ->]; reflexivity. Qed.

Lemma matchAt_complete (s : string) (m : Match) (rest : string) :
  LinkAt s m rest → matchAt s = Some (m, rest).
Proof.
  intros (sch & tail & -> & Hu & Hsch & Ht & Htl & Hf1 & Hf2).
  destruct m as [t u]. simpl in *. subst u.
  rewrite ?str_assoc, ?str_cons, ?str_nil, ?str_assoc.
  unfold matchAt.
  rewrite span_until_run by done.
  destruct t as [| t0 t']; [done |].
  rewrite scheme_complete by done.
  rewrite span_until_run by done.
  destruct tail as [| u0 tail']; [done |]. done.
Qed.

Lemma matchAt_LinkAt (s : string) (m : Match) (rest : string) :
  matchAt s = Some (m, rest) ↔ LinkAt s m rest.
Proof. split; [apply matchAt_shape | apply matchAt_complete]. Qed.

Lemma matchAll_from_Scans (fuel : nat) :
  ∀ s : string, (String.length s ≤ fuel)%nat → Scans s (matchAll_from fuel s).
Proof.
  induction fuel as [| fuel IH]; intros s Hlen.
  - destruct s; [constructor | simpl in Hlen; lia].
  - destruct s as [| a s]; [constructor |]. cbn [matchAll_from].
    destruct (matchAt (String a s)) as [[m rest] |] eqn:E.
    + eapply scans_link; [by apply matchAt_LinkAt |].
      apply IH. apply matchAt_shorter in E. simpl in *. lia.
    + apply scans_skip; [| apply IH; simpl in Hlen; lia].
      intros m rest Hl%matchAt_LinkAt. congruence.
Qed.

Lemma Scans_functional (s : string) (ms ms' : list Match) :
  Scans s ms → Scans s ms' → ms = ms'.
Proof.
  intros H. revert ms'. induction H as [| s m rest ms Hl _ IH | c s ms Hno _ IH];
    intros ms' H'.
  - inversion H' as [| s0 m0 rest0 ms0 Hl0 |]; [done |].
    apply matchAt_LinkAt in Hl0. discriminate Hl0.
  - inversion H' as [| s0 m0 rest0 ms0 Hl0 Hs0 | c0 s0 ms0 Hno0 Hs0]; subst.
    + apply matchAt_LinkAt in Hl. discriminate Hl.
    + apply matchAt_LinkAt in Hl, Hl0. rewrite Hl in Hl0.
      injection Hl0 as <- <-. f_equal. by apply IH.
    + exfalso. by eapply Hno0.
  - inversion H' as [| s0 m0 rest0 ms0 Hl0 Hs0 | c0 s0 ms0 Hno0 Hs0]; subst.
    + exfalso. by eapply Hno.
    + by apply IH.
Qed.

(** Every record offered to the reference is sighted or already was. *)
Lemma firstSightings_complete (l : list ResearchSource) :
  ∀ (E : list string) (r : ResearchSource),
    r ∈ l →
    url r ∈ E ∨ ∃ s, s ∈ firstSightings E l ∧ url s = url r.
Proof.
  induction l as [| x l IH]; intros E r Hr.
  - by apply elem_of_nil in Hr.
  - cbn [firstSightings]. apply elem_of_cons in Hr as [-> | Hr].
    + destruct (decide (url x ∈ E)) as [Hin | Hnin]; [by left |].
      right. exists x. split; [by left | done].
    + destruct (decide (url x ∈ E)) as [Hin | Hnin]; [by apply IH |].
      destruct (IH (url x :: E) r Hr) as [[Heq | Hin]%elem_of_cons | (s & Hs & Hurl)].
      * right. exists x. split; [by left | done].
      * by left.
      * right. exists s. split; [by right | done].
Qed.

(** The records returned, against the links a left-to-right scan finds:
    every link whose url parses has its record, and every record comes from
    a link. *)
Lemma extract_scanned (newURL : string → Result URL) (text : string) (ms : list Match) :
  Scans text ms →
  ∃ out,
    extractSourcesFromContent newURL text = Ok out ∧
    (∀ m u, m ∈ ms → newURL (m_url m) = Ok u →
       ∃ s, s ∈ out ∧ url s = m_url m ∧ domain s = hostname u) ∧
    (∀ s, s ∈ out →
       ∃ m, m ∈ ms ∧ title s = m_title m ∧ url s = m_url m).
Proof.
  intros Hscan.
  assert (ms = matchAll text) as ->.
  { eapply Scans_functional; [exact Hscan |]. by apply matchAll_from_Scans. }
  eexists. split; [apply extract_eq_reference |]. unfold extractSources_reference.
  split.
  - intros m u Hm Hu.
    set (r := {| title := m_title m; url := m_url m; domain := hostname u |}).
    assert (r ∈ omap (parsed newURL) (matchAll text)) as Hin.
    { apply list_elem_of_omap. exists m. split; [done |].
      unfold parsed. by rewrite Hu. }
    destruct (firstSightings_complete _ [] r Hin)
      as [Habs%elem_of_nil | (s & Hs & Hsu)]; [done |].
    exists s. split; [done |]. split; [done |].
    destruct (firstSightings_fresh (omap (parsed newURL) (matchAll text)) [])
      as [_ Hall].
    rewrite Forall_forall in Hall. destruct (Hall _ Hs) as [_ Hs'].
    apply list_elem_of_omap in Hs' as (m' & _ & Hp').
    apply parsed_sound in Hp' as (_ & _ & Hhost).
    rewrite Hsu in Hhost. cbn [url r] in Hhost. rewrite Hu in Hhost.
    by injection Hhost as ->.
  - intros s Hs.
    destruct (firstSightings_fresh (omap (parsed newURL) (matchAll text)) [])
      as [_ Hall].
    rewrite Forall_forall in Hall. destruct (Hall _ Hs) as [_ Hs'].
    apply list_elem_of_omap in Hs' as (m' & Hm' & Hp').
    apply parsed_sound in Hp' as (? & ? & _). by exists m'.
Qed.

(** C2. [extractSourcesFromContent] never throws and returns what the
    reference algorithm returns: the text is scanned from left to right for
    [[title](url)] links with an http:// or https:// url, each match is
    parsed and dropped when parsing fails, one record is kept per url (the
    first), in order of first appearance, with the parsed hostname as
    domain.  The empty text and a javascript: link give no record, a link
    whose url parses gives its record, a link whose url does not parse is
    passed over and the links after it are still read, and no url occurs in
    two records. *)
Theorem extractSourcesFromContent_reference :
  ∀ newURL : string → Result URL,
    (∀ text : string,
       extractSourcesFromContent newURL text =
       Ok (extractSources_reference newURL text)) ∧
    extractSourcesFromContent newURL "" = Ok [] ∧
    extractSourcesFromContent newURL "[not a link](javascript:alert(1))" = Ok [] ∧
    (∀ text : string, NoDup (map url (extractSources_reference newURL text))) ∧
    (∀ text : string,
       Forall (λ s, newURL (url s) = Ok {| hostname := domain s |} ∧
                    ∃ sch tail, url s = sch +:+ tail ∧
                                (sch = "http://" ∨ sch = "https://"))
              (extractSources_reference newURL text)) ∧
    (∀ text : string,
       ∃ ms, Scans text ms ∧
             (∀ ms', Scans text ms' → ms' = ms) ∧
             extractSourcesFromContent newURL text =
             Ok (firstSightings [] (omap (parsed newURL) ms))) ∧
    (∀ u : URL,
       newURL "http://a.b" = Ok u →
       extractSourcesFromContent newURL "[ok](http://a.b)" =
       Ok [ {| title := "ok"; url := "http://a.b"; domain := hostname u |} ]) ∧
    (∀ u v : URL,
       newURL "https://x.com" = Ok u →
       newURL "https://x.com/page" = Ok v →
       extractSourcesFromContent newURL
         "[A](https://x.com) [B](https://x.com/page) [A](https://x.com)" =
       Ok [ {| title := "A"; url := "https://x.com"; domain := hostname u |};
            {| title := "B"; url := "https://x.com/page"; domain := hostname v |} ]) ∧
    (∀ (text : string) (ms : list Match),
       Scans text ms →
       ∃ out,
         extractSourcesFromContent newURL text = Ok out ∧
         (∀ (m : Match) (u : URL),
            m ∈ ms → newURL (m_url m) = Ok u →
            ∃ s, s ∈ out ∧ url s = m_url m ∧ domain s = hostname u) ∧
         (∀ s, s ∈ out →
            ∃ m, m ∈ ms ∧ title s = m_title m ∧ url s = m_url m)) ∧
    (∀ (e : JsError) (v : URL),
       newURL "http://bad" = Raise e →
       newURL "https://x.com" = Ok v →
       extractSourcesFromContent newURL "[bad](http://bad) and [A](https://x.com)" =
       Ok [ {| title := "A"; url := "https://x.com"; domain := hostname v |} ]).
Proof.
  intros newURL.
  split_and!; [apply extract_eq_reference | reflexivity | reflexivity | | | | | | |].
  7: { intros e v Hu Hv. rewrite extract_eq_reference. unfold extractSources_reference.
       replace (matchAll _) with
         [ {| m_title := "bad"; m_url := "http://bad" |};
           {| m_title := "A"; m_url := "https://x.com" |} ] by (by vm_compute).
       cbn [omap list_omap]. unfold parsed. cbn [m_url m_title]. rewrite Hu, Hv.
       cbn [firstSightings url].
       rewrite decide_False by (by intros ?%elem_of_nil). done. }
  6: { intros text ms. apply extract_scanned. }
  - intros text. apply firstSightings_fresh.
  - intros text. unfold extractSources_reference.
    destruct (firstSightings_fresh (omap (parsed newURL) (matchAll text)) [])
      as [_ Hall].
    eapply Forall_impl; [exact Hall |]. intros s [_ Hs].
    apply list_elem_of_omap in Hs as (m & Hm & Hp).
    apply parsed_sound in Hp as (_ & Hurl & Hhost). split; [done |].
    rewrite Hurl. by eapply matchAll_scheme.
  - intros text. exists (matchAll text).
    assert (Scans text (matchAll text)) as Hscan
      by (by apply matchAll_from_Scans).
    split_and!; [done | | apply extract_eq_reference].
    intros ms' Hms'. by eapply Scans_functional.
  - intros u Hu. rewrite extract_eq_reference. unfold extractSources_reference.
    replace (matchAll _) with [ {| m_title := "ok"; m_url := "http://a.b" |} ]
      by (by vm_compute).
    cbn [omap list_omap]. unfold parsed. cbn [m_url m_title]. by rewrite Hu.
  - intros u v Hu Hv. rewrite extract_eq_reference. unfold extractSources_reference.
    replace (matchAll _) with
      [ {| m_title := "A"; m_url := "https://x.com" |};
        {| m_title := "B"; m_url := "https://x.com/page" |};
        {| m_title := "A"; m_url := "https://x.com" |} ] by (by vm_compute).
    cbn [omap list_omap]. unfold parsed. cbn [m_url m_title]. rewrite Hu, Hv.
    cbn [firstSightings url].
    rewrite decide_False by (by intros ?%elem_of_nil).
    rewrite decide_False
      by (intros [? | ?%elem_of_nil]%elem_of_cons; [discriminate | done]).
    rewrite decide_True by (right; by left). done.
Qed.

(** The specification's examples, for a parser that accepts their urls. *)
Lemma extract_duplicates_example (newURL : string → Result URL) :
  newURL "https://x.com" = Ok {| hostname := "x.com" |} →
  newURL "https://x.com/page" = Ok {| hostname := "x.com" |} →
  extractSourcesFromContent newURL
    "[A](https://x.com) [B](https://x.com/page) [A](https://x.com)" =
  Ok [ {| title := "A"; url := "https://x.com"; domain := "x.com" |};
       {| title := "B"; url := "https://x.com/page"; domain := "x.com" |} ].
Proof.
  intros H1 H2.
  rewrite extract_eq_reference.
  unfold extractSources_reference.
  replace (matchAll _) with
    [ {| m_title := "A"; m_url := "https://x.com" |};
      {| m_title := "B"; m_url := "https://x.com/page" |};
      {| m_title := "A"; m_url := "https://x.com" |} ] by (by vm_compute).
  cbn [omap list_omap]. unfold parsed. cbn [m_url m_title]. rewrite H1, H2.
  by vm_compute.
Qed.

Lemma extract_domain_example (newURL : string → Result URL) :
  newURL "http://a.b" = Ok {| hostname := "a.b" |} →
  extractSourcesFromContent newURL "[ok](http://a.b)" =
  Ok [ {| title := "ok"; url := "http://a.b"; domain := "a.b" |} ].
Proof.
  intros H1.
  rewrite extract_eq_reference.
  unfold extractSources_reference.
  replace (matchAll _) with [ {| m_title := "ok"; m_url := "http://a.b" |} ]
    by (by vm_compute).
  cbn [omap list_omap]. unfold parsed. cbn [m_url m_title]. by rewrite H1.
Qed.

End ExtractorFacts.

(** ** Pipeline orchestrator *)

Module OrchestratorFacts.
Import Orchestrator.

(** *** What [execute] puts on the channel *)

(** Run the callback up to its next model call. *)
Ltac run_to_call :=
  cbv beta iota zeta delta
    [createUIMessageStream execute tryCatch awaitGenerateText callStreamText
     lift write merge throw mbind Exec_bind start channel merged calls];
  cbn [app concat].

Ltac next_call c H := fold c; rewrite H; cbv beta iota; cbn [app concat].

Section Runs.

Variable newURL : string → Result URL.
Variable provider : Provider.
Variable query : string.

(** Stage 1 throws: the error status follows the first status, the error is
    re-thrown (the transport turns it into its error frame), and no other
    stage is invoked. *)
Lemma run_rewrite_raises (e : JsError) :
  generateText provider (rewriteCall query) = Raise e →
  createUIMessageStream (execute newURL provider query) =
        ([ DataPart (statusPart "rewriting-query");
           DataPart (statusPart "error");
           ErrorPart (onError e) ],
         [ rewriteCall query ]).
Proof.
  intros H1. run_to_call. by next_call (rewriteCall query) H1.
Qed.

(** Stage 2 throws. *)
Lemma run_search_raises (rewritten : string) (e : JsError) :
  generateText provider (rewriteCall query) = Ok rewritten →
  generateText provider (searchCall rewritten) = Raise e →
  createUIMessageStream (execute newURL provider query) =
        ([ DataPart (statusPart "rewriting-query");
           DataPart {| type := "data-research-query-rewritten"; data := JStr rewritten |};
           DataPart (statusPart "searching");
           DataPart (statusPart "error");
           ErrorPart (onError e) ],
         [ rewriteCall query; searchCall rewritten ]).
Proof.
  intros H1 H2. run_to_call.
  next_call (rewriteCall query) H1. by next_call (searchCall rewritten) H2.
Qed.

(** The call to [streamText] itself throws. *)
Lemma run_streamText_throws (rewritten searchContent : string) (e : JsError) :
  generateText provider (rewriteCall query) = Ok rewritten →
  generateText provider (searchCall rewritten) = Ok searchContent →
  streamText provider
    (synthesisCall query rewritten searchContent (Extractor.extractSources_reference newURL searchContent)) = Raise e →
  createUIMessageStream (execute newURL provider query) =
        (stageParts rewritten searchContent (Extractor.extractSources_reference newURL searchContent) ++
         [ DataPart (statusPart "error"); ErrorPart (onError e) ],
         [ rewriteCall query; searchCall rewritten;
           synthesisCall query rewritten searchContent (Extractor.extractSources_reference newURL searchContent) ]).
Proof.
  intros H1 H2 H3. run_to_call.
  next_call (rewriteCall query) H1. next_call (searchCall rewritten) H2.
  rewrite ExtractorFacts.extract_eq_reference.
  by next_call (synthesisCall query rewritten searchContent
                  (Extractor.extractSources_reference newURL searchContent)) H3.
Qed.

(** [streamText] returns: whatever the stream later does, the terminal pair
    is already written when its chunks arrive. *)
Lemma run_streamText_returns (rewritten searchContent : string) (syn : SynthesisStream) :
  generateText provider (rewriteCall query) = Ok rewritten →
  generateText provider (searchCall rewritten) = Ok searchContent →
  streamText provider
    (synthesisCall query rewritten searchContent (Extractor.extractSources_reference newURL searchContent)) = Ok syn →
  createUIMessageStream (execute newURL provider query) =
        (stageParts rewritten searchContent (Extractor.extractSources_reference newURL searchContent) ++
         terminalParts ++ toUIMessageStream syn,
         [ rewriteCall query; searchCall rewritten;
           synthesisCall query rewritten searchContent (Extractor.extractSources_reference newURL searchContent) ]).
Proof.
  intros H1 H2 H3. run_to_call.
  next_call (rewriteCall query) H1. next_call (searchCall rewritten) H2.
  rewrite ExtractorFacts.extract_eq_reference.
  next_call (synthesisCall query rewritten searchContent
               (Extractor.extractSources_reference newURL searchContent)) H3.
  by rewrite app_nil_r.
Qed.

End Runs.

(** *** Tokens and the terminal pair *)

Lemma beforeFirstToken_stream (syn : SynthesisStream) :
  failure syn = None → beforeFirstToken (toUIMessageStream syn) = [].
Proof.
  unfold toUIMessageStream. intros ->. by destruct (tokens syn).
Qed.

Section SuccessfulRuns.

Variable newURL : string → Result URL.
Variable provider : Provider.
Variable query rewritten searchContent : string.
Variable syn : SynthesisStream.

Hypothesis rewrite_ok : generateText provider (rewriteCall query) = Ok rewritten.
Hypothesis search_ok : generateText provider (searchCall rewritten) = Ok searchContent.
Hypothesis synthesis_ok :
  streamText provider
    (synthesisCall query rewritten searchContent
       (Extractor.extractSources_reference newURL searchContent)) = Ok syn.
Hypothesis stream_ok : failure syn = None.

(** On every successful run the seven stage events come first, in order, and
    the terminal pair is written before the first token as well. *)
Lemma successful_run_events :
  eventsBeforeTokens (fst (createUIMessageStream (execute newURL provider query))) =
  stageEvents ++ [Status "complete"; Complete].
Proof.
  rewrite (run_streamText_returns _ _ _ _ _ _ rewrite_ok search_ok synthesis_ok).
  unfold eventsBeforeTokens, stageParts, terminalParts.
  cbn [fst app beforeFirstToken isToken].
  by rewrite (beforeFirstToken_stream _ stream_ok).
Qed.

(** With at least one token, the terminal pair does not come after the
    tokens: it sits at positions 7 and 8, the first token at position 9. *)
Lemma successful_run_terminal_first :
  tokens syn ≠ [] →
  ¬ terminalAfterTokens (fst (createUIMessageStream (execute newURL provider query))).
Proof.
  intros Htok Hafter.
  rewrite (run_streamText_returns _ _ _ _ _ _ rewrite_ok search_ok synthesis_ok)
    in Hafter.
  unfold toUIMessageStream in Hafter. destruct (tokens syn) as [| t ts]; [done |].
  specialize (Hafter 9 7 t (DataPart (statusPart "complete")) eq_refl eq_refl).
  assert (9 < 7); [| lia]. apply Hafter. by left.
Qed.

End SuccessfulRuns.

(** C1. On the successful run [Sample.working] the seven stage events are
    the first seven events on the channel, in the order of the
    specification, but they are not all that is written before the first
    synthesis token: status(complete) and complete follow them there. *)
Theorem sample_run_events_before_tokens :
  let ch := fst (createUIMessageStream
                   (execute Sample.newURL Sample.working Sample.query)) in
  take 7 (omap eventType ch) = stageEvents ∧
  eventsBeforeTokens ch = stageEvents ++ [Status "complete"; Complete] ∧
  eventsBeforeTokens ch ≠ stageEvents.
Proof. by vm_compute. Qed.

(** C3. On the successful run [Sample.working] the channel carries the
    terminal pair before the tokens of the synthesis stream, not after the
    last of them. *)
Theorem sample_run_terminal_pair_first :
  let ch := fst (createUIMessageStream
                   (execute Sample.newURL Sample.working Sample.query)) in
  ch = stageParts "recent quantum computing breakthroughs"
         "Error correction improved, see [A](https://x.com)."
         [ {| title := "A"; url := "https://x.com"; domain := "x.com" |} ] ++
       terminalParts ++ [TextDelta "Hello"; TextDelta " world"] ∧
  ¬ terminalAfterTokens ch.
Proof.
  split; [by vm_compute |].
  intros Hafter.
  specialize (Hafter 9 7 "Hello" (DataPart (statusPart "complete")) eq_refl eq_refl).
  assert (9 < 7); [| lia]. apply Hafter. by left.
Qed.

(** C4. On the run [Sample.synthesisFails], where the synthesis model fails
    before producing a token, the three stages have all been invoked and the
    channel carries status(complete) and complete, and no status(error): the
    terminal pair was written before the stream failed, and the [catch] block
    was never entered. *)
Theorem sample_failed_synthesis_completes :
  let ch := fst (createUIMessageStream
                   (execute Sample.newURL Sample.synthesisFails Sample.query)) in
  ch = stageParts "recent quantum computing breakthroughs"
         "Error correction improved, see [A](https://x.com)."
         [ {| title := "A"; url := "https://x.com"; domain := "x.com" |} ] ++
       terminalParts ++ [ErrorPart "provider unavailable"] ∧
  omap eventType ch = stageEvents ++ [Status "complete"; Complete] ∧
  (Status "error" ∉ omap eventType ch) ∧
  map model (snd (createUIMessageStream
                    (execute Sample.newURL Sample.synthesisFails Sample.query))) =
    [QueryRewriterModel; WebSearchModel; SynthesisModel].
Proof.
  split_and!; [by vm_compute | by vm_compute | | by vm_compute].
  intros Hin%list_elem_of_In. vm_compute in Hin. intuition discriminate.
Qed.

(** The handler persists whenever it is handed at least one message: one
    batch, every message tagged with the chat id.  It has no other guard. *)
Lemma onFinish_batch (chatId : string) (m : UIMessage) (ms : list UIMessage) :
  ∃ batch, onFinish chatId (m :: ms) = [batch] ∧
           length batch = length (m :: ms) ∧
           Forall (λ d, db_chatId d = chatId) batch.
Proof.
  unfold onFinish. rewrite decide_True by (simpl; lia).
  eexists. split_and!; [done | by rewrite length_map |].
  apply Forall_fmap, Forall_true. done.
Qed.

Lemma onFinish_nothing (chatId : string) : onFinish chatId [] = [].
Proof. reflexivity. Qed.

End OrchestratorFacts.

(** ** Route handler *)

Module RouteFacts.
Import Orchestrator.

Section Validation.

Variable isUuid : string → bool.

Lemma z_string_uuid_spec (v : option JValue) :
  match z_string_uuid isUuid v with
  | Ok s => v = Some (JStr s) ∧ isUuidString isUuid v = true
  | Raise _ => isUuidString isUuid v = false
  end.
Proof.
  destruct v as [[| | |s| |] |]; simpl; try done.
  by destruct (isUuid s).
Qed.

Lemma z_string_min_max_spec (lo hi : nat) (v : option JValue) :
  match z_string_min_max lo hi v with
  | Ok s => v = Some (JStr s) ∧ isStringOfLength lo hi v = true
  | Raise _ => isStringOfLength lo hi v = false
  end.
Proof.
  destruct v as [[| | |s| |] |]; simpl; try done.
  by destruct ((lo <=? String.length s)%nat && (String.length s <=? hi)%nat).
Qed.

(** The schema accepts exactly the acceptable bodies, and hands back their
    three fields. *)
Lemma researchRequestSchema_parse_spec (j : JValue) :
  match researchRequestSchema_parse isUuid j with
  | Ok r =>
      validBody isUuid j = true ∧
      ∃ fields, j = JObj fields ∧
                property "id" fields = Some (JStr (id r)) ∧
                property "query" fields = Some (JStr (query r)) ∧
                property "chatId" fields = Some (JStr (chatId r))
  | Raise _ => validBody isUuid j = false
  end.
Proof.
  destruct j as [| | | | | fields]; simpl; try done.
  pose proof (z_string_uuid_spec (property "id" fields)) as Hi.
  pose proof (z_string_min_max_spec 1 2000 (property "query" fields)) as Hq.
  pose proof (z_string_uuid_spec (property "chatId" fields)) as Hc.
  destruct (z_string_uuid isUuid (property "id" fields)) as [i |];
    cbn [mbind Result_bind]; [| by rewrite Hi].
  destruct Hi as [Hi ->].
  destruct (z_string_min_max 1 2000 (property "query" fields)) as [q |];
    cbn [mbind Result_bind]; [| by rewrite Hq].
  destruct Hq as [Hq ->].
  destruct (z_string_uuid isUuid (property "chatId" fields)) as [c |];
    cbn [mbind Result_bind]; [| by rewrite Hc].
  destruct Hc as [Hc ->]. split; [done |]. by exists fields.
Qed.

End Validation.

Section Handler.

Variable isUuid : string → bool.
Variable newURL : string → Result URL.
Variable provider : Provider.
Variable auth : option Session.

(** A rejected body is answered from the [catch] block: nothing else has
    happened by then. *)
Lemma POST_invalid (request : Request) :
  validRequest isUuid request = false →
  POST isUuid newURL provider auth request =
  {| response := ChatSDKError_toResponse bad_request_api; effects := [] |}.
Proof.
  unfold validRequest, POST. destruct (json request) as [j | e]; [| done].
  cbn [mbind Result_bind].
  pose proof (researchRequestSchema_parse_spec isUuid j) as Hp.
  destruct (researchRequestSchema_parse isUuid j) as [r | e]; [| done].
  destruct Hp as [-> _]. done.
Qed.

(** An accepted body from a caller without a session user is answered right
    after [auth()]. *)
Lemma POST_unauthenticated (request : Request) :
  validRequest isUuid request = true →
  auth ≫= user = None →
  POST isUuid newURL provider auth request =
  {| response := ChatSDKError_toResponse unauthorized_chat;
     effects := [AuthConsulted] |}.
Proof.
  unfold validRequest, POST. destruct (json request) as [j | e]; [| done].
  cbn [mbind Result_bind].
  pose proof (researchRequestSchema_parse_spec isUuid j) as Hp.
  destruct (researchRequestSchema_parse isUuid j) as [r | e].
  - intros _ ->. done.
  - rewrite Hp. done.
Qed.

End Handler.

(** C6, as amended.  A request whose body fails validation is answered with
    HTTP 400 and a structured error body, and a request whose body passes
    validation, from a caller without an authenticated session, with HTTP
    401; in both cases no pipeline stage is invoked and no event stream is
    opened.  The condition on the body is needed: the body is validated
    before the session is looked at, so a caller without a session who sends
    an invalid body is answered with 400. *)
Theorem POST_rejects_without_pipeline :
  ∀ (isUuid : string → bool) (newURL : string → Result URL)
    (provider : Provider) (auth : option Session) (request : Request),
    validRequest isUuid request = false ∨ auth ≫= user = None →
    let h := POST isUuid newURL provider auth request in
    let code := if validRequest isUuid request
                then unauthorized_chat else bad_request_api in
    statusCode (response h) = (if validRequest isUuid request then 401 else 400) ∧
    body (response h) = ErrorBody code ∧
    ¬ stageRan h ∧
    (StreamOpened ∉ effects h) ∧
    ¬ isStream (response h).
Proof.
  intros isUuid newURL provider auth request Hrej h code. subst h code.
  destruct (validRequest isUuid request) eqn:Hv.
  - destruct Hrej as [? | Hauth]; [done |].
    rewrite (POST_unauthenticated _ _ _ _ _ Hv Hauth). simpl.
    split_and!; [done | done | | | ].
    + intros [c Hc%list_elem_of_singleton]. discriminate Hc.
    + intros Hc%list_elem_of_singleton. discriminate Hc.
    + intros [chunks ?]. done.
  - rewrite (POST_invalid _ _ _ _ _ Hv). simpl.
    split_and!; [done | done | | | ].
    + intros [c Hc%elem_of_nil]. done.
    + apply not_elem_of_nil.
    + intros [chunks ?]. done.
Qed.

Lemma POST_rejects_without_pipeline_witness :
  (let h := POST Sample.isUuid Sample.newURL Sample.working Sample.signedIn
              {| json := Ok (Sample.body "") |} in
   statusCode (response h) = 400 ∧ body (response h) = ErrorBody bad_request_api ∧
   ¬ stageRan h ∧ (StreamOpened ∉ effects h) ∧ ¬ isStream (response h)) ∧
  (let h := POST Sample.isUuid Sample.newURL Sample.working None
              {| json := Ok (Sample.body Sample.query) |} in
   statusCode (response h) = 401 ∧ body (response h) = ErrorBody unauthorized_chat ∧
   ¬ stageRan h ∧ (StreamOpened ∉ effects h) ∧ ¬ isStream (response h)).
Proof.
  split.
  - apply (POST_rejects_without_pipeline Sample.isUuid Sample.newURL Sample.working
             Sample.signedIn {| json := Ok (Sample.body "") |}).
    left. vm_compute. reflexivity.
  - apply (POST_rejects_without_pipeline Sample.isUuid Sample.newURL Sample.working
             None {| json := Ok (Sample.body Sample.query) |}).
    right. reflexivity.
Defined.

(** Counterexample to C6 as first stated (every caller without an
    authenticated session is answered with HTTP 401): a request without a
    session whose body has an empty query fails validation and is answered
    with 400, not 401. *)
Lemma POST_no_session_invalid_body_400 :
  (None : option Session) ≫= user = None ∧
  validRequest Sample.isUuid {| json := Ok (Sample.body "") |} = false ∧
  statusCode (response (POST Sample.isUuid Sample.newURL Sample.working None
                          {| json := Ok (Sample.body "") |})) = 400 ∧
  ¬ (statusCode (response (POST Sample.isUuid Sample.newURL Sample.working None
                             {| json := Ok (Sample.body "") |})) = 401).
Proof.
  split_and!; [reflexivity | by vm_compute | by vm_compute |].
  vm_compute. discriminate.
Qed.

(** C9. The body is validated before authentication is consulted: a request
    whose body fails the schema is answered with HTTP 400 whatever the
    session, and [auth()] is never called for it; an unauthenticated caller
    with an invalid body gets 400, not 401. *)
Theorem POST_validates_before_auth :
  ∀ (isUuid : string → bool) (newURL : string → Result URL)
    (provider : Provider) (auth : option Session) (request : Request),
    validRequest isUuid request = false →
    let h := POST isUuid newURL provider auth request in
    statusCode (response h) = 400 ∧
    statusCode (response h) ≠ 401 ∧
    (AuthConsulted ∉ effects h) ∧
    h = POST isUuid newURL provider None request.
Proof.
  intros isUuid newURL provider auth request Hv h. subst h.
  rewrite !(POST_invalid _ _ _ _ _ Hv). simpl.
  split_and!; [done | done | apply not_elem_of_nil | done].
Qed.

Lemma POST_validates_before_auth_witness :
  let h := POST Sample.isUuid Sample.newURL Sample.working None
             {| json := Ok (JObj [("id", JStr "42"); ("query", JStr "hello")]) |} in
  statusCode (response h) = 400 ∧
  statusCode (response h) ≠ 401 ∧
  (AuthConsulted ∉ effects h) ∧
  h = POST Sample.isUuid Sample.newURL Sample.working None
        {| json := Ok (JObj [("id", JStr "42"); ("query", JStr "hello")]) |}.
Proof.
  apply (POST_validates_before_auth Sample.isUuid Sample.newURL Sample.working None
           {| json := Ok (JObj [("id", JStr "42"); ("query", JStr "hello")]) |}).
  vm_compute. reflexivity.
Defined.

End RouteFacts.

(** ** More on the client reducer *)

Module ReducerLaws.
Import Reducer Client.

(** Case analysis on the type of a delta, one goal per branch of the switch. *)
Ltac by_type d :=
  unfold handleResearchData, setResearch;
  repeat match goal with
  | |- context [String.eqb (type d) ?s] =>
      let E := fresh "E" in destruct (String.eqb (type d) s) eqn:E
  end.

(** X1. Applying the same event twice in a row gives the state that applying
    it once gives. *)
Theorem handleResearchData_idempotent :
  ∀ (d : Delta) (st : ResearchState),
    handleResearchData d (handleResearchData d st) = handleResearchData d st.
Proof. intros d st. by_type d; reflexivity. Qed.

(** X2. Two events that do not touch the same part of the state can be
    applied in either order: events of different types commute, except a
    status event with a complete event. *)
Theorem handleResearchData_commute :
  ∀ (d1 d2 : Delta) (st : ResearchState),
    clash d1 d2 = false →
    handleResearchData d1 (handleResearchData d2 st) =
    handleResearchData d2 (handleResearchData d1 st).
Proof.
  intros d1 d2 st Hclash. unfold clash in Hclash.
  apply orb_false_iff in Hclash as [[Hne H12]%orb_false_iff H21].
  apply String.eqb_neq in Hne.
  unfold handleResearchData, setResearch.
  destruct (String.eqb (type d1) "data-research-status") eqn:S1;
    destruct (String.eqb (type d2) "data-research-status") eqn:S2;
    try (apply String.eqb_eq in S1); try (apply String.eqb_eq in S2);
    try (exfalso; congruence);
  destruct (String.eqb (type d1) "data-research-complete") eqn:C1;
    destruct (String.eqb (type d2) "data-research-complete") eqn:C2;
    try (apply String.eqb_eq in C1); try (apply String.eqb_eq in C2);
    try (exfalso; congruence); try discriminate;
  destruct (String.eqb (type d1) "data-research-query-rewritten") eqn:Q1;
    destruct (String.eqb (type d2) "data-research-query-rewritten") eqn:Q2;
    try (apply String.eqb_eq in Q1); try (apply String.eqb_eq in Q2);
    try (exfalso; congruence);
  destruct (String.eqb (type d1) "data-research-search-results") eqn:R1;
    destruct (String.eqb (type d2) "data-research-search-results") eqn:R2;
    try (apply String.eqb_eq in R1); try (apply String.eqb_eq in R2);
    try (exfalso; congruence);
  destruct (String.eqb (type d1) "data-research-sources") eqn:O1;
    destruct (String.eqb (type d2) "data-research-sources") eqn:O2;
    try (apply String.eqb_eq in O1); try (apply String.eqb_eq in O2);
    try (exfalso; congruence);
  reflexivity.
Qed.

Lemma handleResearchData_commute_witness :
  handleResearchData {| type := "data-research-sources"; data := JArr [] |}
    (handleResearchData (statusDelta (JStr "searching")) initialState) =
  handleResearchData (statusDelta (JStr "searching"))
    (handleResearchData {| type := "data-research-sources"; data := JArr [] |}
       initialState).
Proof. apply handleResearchData_commute. reflexivity. Defined.

Lemma lastData_snoc (ty : string) (ds : list Delta) (e : Delta) :
  lastData ty (ds ++ [e]) =
  if String.eqb (type e) ty then Some (data e) else lastData ty ds.
Proof.
  induction ds as [| d ds IH]; simpl.
  - by destruct (String.eqb (type e) ty).
  - rewrite IH. by destruct (String.eqb (type e) ty).
Qed.

(** X3. Each of the four data fields holds the payload of the last event of
    its type, whatever came between and after, and its initial value if no
    such event arrived: fields are replaced, never merged. *)
Theorem reached_last_write_wins :
  ∀ ds : list Delta,
    status (reached ds) = default JNull (lastData "data-research-status" ds) ∧
    rewrittenQuery (reached ds) =
      default JNull (lastData "data-research-query-rewritten" ds) ∧
    searchResults (reached ds) =
      default JNull (lastData "data-research-search-results" ds) ∧
    sources (reached ds) =
      default (JArr []) (lastData "data-research-sources" ds).
Proof.
  induction ds as [| e ds IH] using rev_ind; [by split_and! |].
  destruct IH as (IH1 & IH2 & IH3 & IH4).
  rewrite ReducerFacts.reached_snoc, !lastData_snoc.
  unfold handleResearchData, setResearch.
  destruct (String.eqb (type e) "data-research-status") eqn:S1.
  { apply String.eqb_eq in S1. rewrite ?S1. simpl. by split_and!. }
  destruct (String.eqb (type e) "data-research-query-rewritten") eqn:Q1.
  { apply String.eqb_eq in Q1. rewrite ?Q1. simpl. by split_and!. }
  destruct (String.eqb (type e) "data-research-search-results") eqn:R1.
  { apply String.eqb_eq in R1. rewrite ?R1. simpl. by split_and!. }
  destruct (String.eqb (type e) "data-research-sources") eqn:O1.
  { apply String.eqb_eq in O1. rewrite ?O1. simpl. by split_and!. }
  destruct (String.eqb (type e) "data-research-complete") eqn:C1;
    simpl; by split_and!.
Qed.

End ReducerLaws.

(** ** More on the orchestrator: every run, and the client after it *)

Module RunFacts.
Import Orchestrator Client.

Lemma events_stageParts (rewritten searchContent : string) (srcs : list ResearchSource) :
  omap eventType (stageParts rewritten searchContent srcs) = stageEvents.
Proof. reflexivity. Qed.

Lemma events_stream (syn : SynthesisStream) :
  omap eventType (toUIMessageStream syn) = [].
Proof.
  unfold toUIMessageStream. rewrite omap_app.
  assert (omap eventType (map TextDelta (tokens syn)) = []) as ->.
  { induction (tokens syn) as [| t ts IH]; [done | exact IH]. }
  by destruct (failure syn) as [[msg] |].
Qed.

Lemma dataParts_stream (syn : SynthesisStream) :
  dataParts (toUIMessageStream syn) = [].
Proof.
  unfold toUIMessageStream, dataParts. rewrite omap_app.
  assert (omap (λ c, match c with DataPart d => Some d | _ => None end)
               (map TextDelta (tokens syn)) = []) as ->.
  { induction (tokens syn) as [| t ts IH]; [done | exact IH]. }
  by destruct (failure syn) as [[msg] |].
Qed.

Ltac no_member := intros Hin%list_elem_of_In; simpl in Hin; intuition discriminate.
Ltac member := apply list_elem_of_In; simpl; tauto.

(** X4. Whatever the provider does, a run starts with status(rewriting-query),
    invokes the stages in order and stops at the first one that throws, and
    ends in exactly one of two ways: with status(complete) and complete and
    no status(error), all three stages invoked; or with status(error) as its
    last data part, followed by the transport's error frame, and with neither
    status(complete) nor complete.  Which way, which calls were made and
    which events were written is fixed by the first call that throws: the
    rewriter (one call, two events), the search (two calls, four events),
    streamText (three calls, the seven stage events and the error status), or
    none (three calls, the stage events and the terminal pair). *)
Theorem run_ends_one_way :
  ∀ (newURL : string → Result URL) (provider : Provider) (query : string),
    let ch := fst (createUIMessageStream (execute newURL provider query)) in
    let calls := snd (createUIMessageStream (execute newURL provider query)) in
    let stages := map model calls in
    let events := omap eventType ch in
    head ch = Some (DataPart (statusPart "rewriting-query")) ∧
    stages `prefix_of` [QueryRewriterModel; WebSearchModel; SynthesisModel] ∧
    ((Status "complete" ∈ events ∧ Complete ∈ events ∧ (Status "error" ∉ events) ∧
      stages = [QueryRewriterModel; WebSearchModel; SynthesisModel])
     ∨
     (last events = Some (Status "error") ∧
      (∃ e, last ch = Some (ErrorPart (onError e))) ∧
      (Status "complete" ∉ events) ∧ (Complete ∉ events) ∧ stages ≠ [])) ∧
    ((∃ e, generateText provider (rewriteCall query) = Raise e ∧
           calls = [rewriteCall query] ∧
           events = [Status "rewriting-query"; Status "error"])
     ∨
     (∃ rw e, generateText provider (rewriteCall query) = Ok rw ∧
              generateText provider (searchCall rw) = Raise e ∧
              calls = [rewriteCall query; searchCall rw] ∧
              events = [Status "rewriting-query"; QueryRewritten;
                        Status "searching"; Status "error"])
     ∨
     (∃ rw sc,
        generateText provider (rewriteCall query) = Ok rw ∧
        generateText provider (searchCall rw) = Ok sc ∧
        calls = [rewriteCall query; searchCall rw;
                 synthesisCall query rw sc
                   (Extractor.extractSources_reference newURL sc)] ∧
        ((∃ e, streamText provider
                 (synthesisCall query rw sc
                    (Extractor.extractSources_reference newURL sc)) = Raise e ∧
               events = stageEvents ++ [Status "error"])
         ∨
         (∃ syn, streamText provider
                   (synthesisCall query rw sc
                      (Extractor.extractSources_reference newURL sc)) = Ok syn ∧
                 events = stageEvents ++ [Status "complete"; Complete])))).
Proof.
  intros newURL provider query.
  destruct (generateText provider (rewriteCall query)) as [rw | e] eqn:H1.
  2: { rewrite (OrchestratorFacts.run_rewrite_raises _ _ _ _ H1). cbn.
       split_and!; [done | by exists [WebSearchModel; SynthesisModel] | |].
       - right. split_and!; [done | by exists e | no_member | no_member | done].
       - left. by exists e. }
  destruct (generateText provider (searchCall rw)) as [sc | e] eqn:H2.
  2: { rewrite (OrchestratorFacts.run_search_raises _ _ _ _ _ H1 H2). cbn.
       split_and!; [done | by exists [SynthesisModel] | |].
       - right. split_and!; [done | by exists e | no_member | no_member | done].
       - right. left. exists rw, e. by rewrite H2. }
  destruct (streamText provider
              (synthesisCall query rw sc
                 (Extractor.extractSources_reference newURL sc)))
    as [syn | e] eqn:H3.
  - rewrite (OrchestratorFacts.run_streamText_returns _ _ _ _ _ _ H1 H2 H3).
    cbn [fst snd map model rewriteCall searchCall synthesisCall].
    rewrite !omap_app, events_stageParts, events_stream, app_nil_r.
    split_and!; [done | done | |].
    + left. split_and!; [member | member | no_member | done].
    + right. right. exists rw, sc. rewrite H2. split_and!; [done | done | done |].
      right. exists syn. by rewrite H3.
  - rewrite (OrchestratorFacts.run_streamText_throws _ _ _ _ _ _ H1 H2 H3).
    cbn [fst snd map model rewriteCall searchCall synthesisCall].
    rewrite !omap_app, events_stageParts.
    split_and!; [done | done | |].
    + right. split_and!; [done | | no_member | no_member | done].
      exists e. by rewrite last_app.
    + right. right. exists rw, sc. rewrite H2. split_and!; [done | done | done |].
      left. exists e. by rewrite H3.
Qed.

(** X5. When all three invocations return, the reducer ends with status
    complete, inactive, holding the rewritten query, the raw search text and
    the extracted sources of that run. *)
Theorem finalState_successful :
  ∀ (newURL : string → Result URL) (provider : Provider)
    (query rewritten searchContent : string) (syn : SynthesisStream),
    generateText provider (rewriteCall query) = Ok rewritten →
    generateText provider (searchCall rewritten) = Ok searchContent →
    streamText provider
      (synthesisCall query rewritten searchContent
         (Extractor.extractSources_reference newURL searchContent)) = Ok syn →
    finalState newURL provider query =
    {| Reducer.status := JStr "complete";
       Reducer.rewrittenQuery := JStr rewritten;
       Reducer.searchResults := JStr searchContent;
       Reducer.sources :=
         sourcesToJson (Extractor.extractSources_reference newURL searchContent);
       Reducer.isActive := false |}.
Proof.
  intros newURL provider query rw sc syn H1 H2 H3. unfold finalState.
  rewrite (OrchestratorFacts.run_streamText_returns _ _ _ _ _ _ H1 H2 H3).
  cbn [fst]. unfold dataParts. rewrite !omap_app. fold (dataParts (toUIMessageStream syn)).
  by rewrite dataParts_stream.
Qed.

Lemma finalState_successful_witness :
  finalState Sample.newURL Sample.working Sample.query =
  {| Reducer.status := JStr "complete";
     Reducer.rewrittenQuery := JStr "recent quantum computing breakthroughs";
     Reducer.searchResults :=
       JStr "Error correction improved, see [A](https://x.com).";
     Reducer.sources :=
       sourcesToJson
         (Extractor.extractSources_reference Sample.newURL
            "Error correction improved, see [A](https://x.com).");
     Reducer.isActive := false |}.
Proof.
  apply (finalState_successful Sample.newURL Sample.working Sample.query
           "recent quantum computing breakthroughs"
           "Error correction improved, see [A](https://x.com)."
           {| tokens := ["Hello"; " world"]; failure := None |});
    reflexivity.
Defined.

(** X6. After every run the reducer is inactive, and its status is complete
    or error: error exactly when one of the three invocations threw, and then
    the fields hold what the stages before the failing one produced. *)
Theorem finalState_settled :
  ∀ (newURL : string → Result URL) (provider : Provider) (query : string),
    let st := finalState newURL provider query in
    Reducer.isActive st = false ∧
    ((∃ e, generateText provider (rewriteCall query) = Raise e ∧
           st = {| Reducer.status := JStr "error";
                   Reducer.rewrittenQuery := JNull;
                   Reducer.searchResults := JNull;
                   Reducer.sources := JArr [];
                   Reducer.isActive := false |})
     ∨
     (∃ rw e, generateText provider (rewriteCall query) = Ok rw ∧
              generateText provider (searchCall rw) = Raise e ∧
              st = {| Reducer.status := JStr "error";
                      Reducer.rewrittenQuery := JStr rw;
                      Reducer.searchResults := JNull;
                      Reducer.sources := JArr [];
                      Reducer.isActive := false |})
     ∨
     (∃ rw sc,
        generateText provider (rewriteCall query) = Ok rw ∧
        generateText provider (searchCall rw) = Ok sc ∧
        Reducer.rewrittenQuery st = JStr rw ∧
        Reducer.searchResults st = JStr sc ∧
        Reducer.sources st =
          sourcesToJson (Extractor.extractSources_reference newURL sc) ∧
        ((∃ e, streamText provider
                 (synthesisCall query rw sc
                    (Extractor.extractSources_reference newURL sc)) = Raise e ∧
               Reducer.status st = JStr "error")
         ∨
         (∃ syn, streamText provider
                   (synthesisCall query rw sc
                      (Extractor.extractSources_reference newURL sc)) = Ok syn ∧
                 Reducer.status st = JStr "complete")))).
Proof.
  intros newURL provider query st. subst st. unfold finalState.
  destruct (generateText provider (rewriteCall query)) as [rw | e] eqn:H1.
  2: { rewrite (OrchestratorFacts.run_rewrite_raises _ _ _ _ H1).
       split; [done |]. left. by exists e. }
  destruct (generateText provider (searchCall rw)) as [sc | e] eqn:H2.
  2: { rewrite (OrchestratorFacts.run_search_raises _ _ _ _ _ H1 H2).
       split; [done |]. right. left. by exists rw, e. }
  destruct (streamText provider
              (synthesisCall query rw sc
                 (Extractor.extractSources_reference newURL sc)))
    as [syn | e] eqn:H3.
  - rewrite (OrchestratorFacts.run_streamText_returns _ _ _ _ _ _ H1 H2 H3).
    cbn [fst]. unfold dataParts. rewrite !omap_app.
    fold (dataParts (toUIMessageStream syn)). rewrite dataParts_stream.
    split; [done |]. right. right. exists rw, sc. split_and!; try done.
    right. by exists syn.
  - rewrite (OrchestratorFacts.run_streamText_throws _ _ _ _ _ _ H1 H2 H3).
    split; [done |]. right. right. exists rw, sc. split_and!; try done.
    left. by exists e.
Qed.

End RunFacts.

(** ** More on the source extractor *)

Module ExtractorMore.
Import Extractor Links ExtractorFacts.

Lemma list_ascii_app (s t : string) :
  list_ascii_of_string (s +:+ t) = list_ascii_of_string s ++ list_ascii_of_string t.
Proof. induction s as [| a s IH]; [done |]. rewrite str_cons. simpl. by rewrite IH. Qed.

Lemma matchAll_from_occurs (fuel : nat) :
  ∀ (s : string) (m : Match),
    m ∈ matchAll_from fuel s → occursIn (matchMarkup m) s.
Proof.
  induction fuel as [| fuel IH]; intros s m; simpl.
  - by intros ?%elem_of_nil.
  - destruct s as [| a s]; [by intros ?%elem_of_nil |].
    destruct (matchAt (String a s)) as [[m' rest] |] eqn:E.
    + apply matchAt_shape in E as (sch & tail & Hs & _).
      intros [-> | Hin]%elem_of_cons.
      * exists "", rest. rewrite Hs. unfold matchMarkup.
        by rewrite ?str_assoc, ?str_cons, ?str_nil.
      * destruct (IH _ _ Hin) as (pre & post & ->).
        exists (matchMarkup m' +:+ pre), post. rewrite Hs. unfold matchMarkup.
        by rewrite ?str_assoc, ?str_cons, ?str_nil, ?str_assoc.
    + intros Hin. destruct (IH _ _ Hin) as (pre & post & ->).
      exists (String a pre), post. by rewrite str_cons.
Qed.

Lemma matchAll_from_shape (fuel : nat) :
  ∀ (s : string) (m : Match),
    m ∈ matchAll_from fuel s →
    m_title m ≠ "" ∧ free_of "]" (m_title m) ∧ free_of ")" (m_url m).
Proof.
  induction fuel as [| fuel IH]; intros s m; simpl.
  - by intros ?%elem_of_nil.
  - destruct s as [| a s]; [by intros ?%elem_of_nil |].
    destruct (matchAt (String a s)) as [[m' rest] |] eqn:E; [| apply IH].
    intros [-> | Hin]%elem_of_cons; [| by eapply IH].
    apply matchAt_shape in E as (sch & tail & _ & Hu & Hsch & Ht & _ & Hf1 & Hf2).
    split_and!; [done | done |].
    intros c. rewrite Hu, list_ascii_app. intros [Hc | Hc]%elem_of_app.
    + destruct Hsch as [-> | ->]; simpl in Hc;
        repeat (apply elem_of_cons in Hc as [-> | Hc]; [done |]);
        by apply elem_of_nil in Hc.
    + by apply Hf2.
Qed.

(** Thirteen characters is the shortest match: [[a](http://b)]. *)
Lemma matchAll_from_bound (fuel : nat) :
  ∀ s : string, (13 * length (matchAll_from fuel s) ≤ String.length s)%nat.
Proof.
  induction fuel as [| fuel IH]; intros s; simpl; [lia |].
  destruct s as [| a s]; [simpl; lia |].
  destruct (matchAt (String a s)) as [[m rest] |] eqn:E.
  - apply matchAt_shape in E as (sch & tail & Hs & Hu & Hsch & Ht & Htl & _).
    specialize (IH rest). rewrite Hs, Hu.
    rewrite !length_append.
    assert (1 ≤ String.length (m_title m))%nat by (destruct (m_title m); [done | simpl; lia]).
    assert (1 ≤ String.length tail)%nat by (destruct tail; [done | simpl; lia]).
    assert (7 ≤ String.length sch)%nat by (destruct Hsch as [-> | ->]; simpl; lia).
    simpl in *. lia.
  - specialize (IH s). simpl. lia.
Qed.

Section Results.

Variable newURL : string → Result URL.

Lemma reference_from_match (text : string) (s : ResearchSource) :
  s ∈ extractSources_reference newURL text →
  ∃ m, m ∈ matchAll text ∧ parsed newURL m = Some s.
Proof.
  unfold extractSources_reference. intros Hs.
  destruct (firstSightings_fresh (omap (parsed newURL) (matchAll text)) [])
    as [_ Hall].
  rewrite Forall_forall in Hall. destruct (Hall _ Hs) as [_ Hin].
  by apply list_elem_of_omap in Hin.
Qed.

Lemma firstSightings_length (l : list ResearchSource) :
  ∀ E, (length (firstSightings E l) ≤ length l)%nat.
Proof.
  induction l as [| s l IH]; intros E; simpl; [done |].
  destruct (decide (url s ∈ E)).
  - specialize (IH E). lia.
  - specialize (IH (url s :: E)). simpl. lia.
Qed.

Lemma omap_length {A B : Type} (f : A → option B) (l : list A) :
  (length (omap f l) ≤ length l)%nat.
Proof.
  induction l as [| a l IH]; [done |].
  change (omap f (a :: l)) with
    (match f a with Some y => y :: omap f l | None => omap f l end).
  destruct (f a); simpl in *; lia.
Qed.

(** The first source with a given url, among sources not yet sighted, is kept. *)
Lemma firstSightings_keeps (pre : list ResearchSource) :
  ∀ (E : list string) (s : ResearchSource) (post : list ResearchSource),
    url s ∉ E →
    Forall (λ s', url s' ≠ url s) pre →
    s ∈ firstSightings E (pre ++ s :: post).
Proof.
  induction pre as [| p pre IH]; intros E s post HE Hpre; simpl.
  - rewrite decide_False by done. by left.
  - apply Forall_cons in Hpre as [Hp Hpre].
    destruct (decide (url p ∈ E)); [by apply IH |].
    right. apply IH; [| done].
    intros [? | ?]%elem_of_cons; [congruence | done].
Qed.

Lemma omap_parsed_urls (ms : list Match) (u : string) :
  Forall (λ m, m_url m ≠ u) ms →
  Forall (λ s, url s ≠ u) (omap (parsed newURL) ms).
Proof.
  intros Hms. apply Forall_forall. intros s (m & Hm & Hp)%list_elem_of_omap.
  rewrite Forall_forall in Hms. specialize (Hms _ Hm).
  apply parsed_sound in Hp as (_ & -> & _). done.
Qed.

End Results.

(** X7. The extractor invents nothing: every record it returns stands for a
    markdown link [[title](url)] that occurs in the content, with a
    non-empty title free of [']'] and a url free of [')']. *)
Theorem extracted_links_occur :
  ∀ (newURL : string → Result URL) (content : string),
    ∃ l, extractSourcesFromContent newURL content = Ok l ∧
         Forall (λ s, occursIn (markup s) content ∧
                      title s ≠ "" ∧
                      free_of "]" (title s) ∧ free_of ")" (url s)) l.
Proof.
  intros newURL content. eexists. split; [apply extract_eq_reference |].
  apply Forall_forall. intros s (m & Hm & Hp)%reference_from_match.
  apply parsed_sound in Hp as (Ht & Hu & _).
  pose proof (matchAll_from_occurs _ _ _ Hm) as Hocc.
  pose proof (matchAll_from_shape _ _ _ Hm) as Hshape.
  unfold markup. unfold matchMarkup in Hocc. by rewrite Ht, Hu.
Qed.

(** X8. The number of records is bounded by the length of the content: a
    link takes at least thirteen characters. *)
Theorem extracted_count_bound :
  ∀ (newURL : string → Result URL) (content : string),
    ∃ l, extractSourcesFromContent newURL content = Ok l ∧
         (13 * length l ≤ String.length content)%nat.
Proof.
  intros newURL content. eexists. split; [apply extract_eq_reference |].
  unfold extractSources_reference.
  pose proof (firstSightings_length (omap (parsed newURL) (matchAll content)) []).
  pose proof (omap_length (parsed newURL) (matchAll content)).
  pose proof (matchAll_from_bound (String.length content) content).
  unfold matchAll in *. lia.
Qed.

(** X9. For every match whose url the parser accepts and that is the first
    match with that url, the result holds the record with that match's title,
    and it is the only record with that url: later titles for the same url
    are dropped. *)
Theorem first_title_wins :
  ∀ (newURL : string → Result URL) (content : string)
    (pre : list Match) (m : Match) (post : list Match) (u : URL),
    matchAll content = pre ++ m :: post →
    Forall (λ m', m_url m' ≠ m_url m) pre →
    newURL (m_url m) = Ok u →
    ∃ l, extractSourcesFromContent newURL content = Ok l ∧
         {| title := m_title m; url := m_url m; domain := hostname u |} ∈ l ∧
         ∀ s, s ∈ l → url s = m_url m → title s = m_title m.
Proof.
  intros newURL content pre m post u Hall Hpre Hu.
  eexists. split; [apply extract_eq_reference |].
  set (r := {| title := m_title m; url := m_url m; domain := hostname u |}).
  assert (r ∈ extractSources_reference newURL content) as Hr.
  { unfold extractSources_reference. rewrite Hall, omap_app.
    cbn [omap list_omap]. unfold parsed at 2. rewrite Hu. fold r.
    apply firstSightings_keeps; [by intros ?%elem_of_nil |].
    by apply omap_parsed_urls. }
  split; [done |]. intros s Hs Hurl.
  pose proof (proj1 (firstSightings_fresh (omap (parsed newURL) (matchAll content)) []))
    as Hnd.
  fold (extractSources_reference newURL content) in Hnd.
  assert (s = r) as ->; [| done].
  apply list_elem_of_lookup in Hs as [i Hi]. apply list_elem_of_lookup in Hr as [j Hj].
  assert (i = j) as ->.
  { eapply NoDup_lookup; [exact Hnd | |]; rewrite list_lookup_fmap.
    - by rewrite Hi.
    - rewrite Hj. simpl. by rewrite Hurl. }
  congruence.
Qed.

Lemma first_title_wins_witness :
  ∃ l, extractSourcesFromContent Orchestrator.Sample.newURL
         "[A](https://x.com) and again [B](https://x.com)" = Ok l ∧
       {| title := "A"; url := "https://x.com"; domain := "x.com" |} ∈ l ∧
       ∀ s, s ∈ l → url s = "https://x.com" → title s = "A".
Proof.
  apply (first_title_wins Orchestrator.Sample.newURL
           "[A](https://x.com) and again [B](https://x.com)"
           [] {| m_title := "A"; m_url := "https://x.com" |}
           [ {| m_title := "B"; m_url := "https://x.com" |} ]
           {| hostname := "x.com" |}).
  - vm_compute. reflexivity.
  - constructor.
  - reflexivity.
Defined.

End ExtractorMore.

(** ** More on the route handler *)

Module RouteMore.
Import Orchestrator Wire.

(** X10. What the schema accepts is well-formed and stable: the parsed
    request has UUID ids and a query of 1 to 2000 characters, carries the
    values of the body's three properties and nothing of its other
    properties, and validating it again returns it unchanged. *)
Theorem researchRequestSchema_accepted :
  ∀ (isUuid : string → bool) (j : JValue) (r : ResearchRequest),
    researchRequestSchema_parse isUuid j = Ok r →
    isUuid (id r) = true ∧
    isUuid (chatId r) = true ∧
    (1 ≤ String.length (query r))%nat ∧ (String.length (query r) ≤ 2000)%nat ∧
    (∃ fields, j = JObj fields ∧
               property "id" fields = Some (JStr (id r)) ∧
               property "query" fields = Some (JStr (query r)) ∧
               property "chatId" fields = Some (JStr (chatId r))) ∧
    researchRequestSchema_parse isUuid (requestToJson r) = Ok r.
Proof.
  intros isUuid j r Hp.
  pose proof (RouteFacts.researchRequestSchema_parse_spec isUuid j) as Hspec.
  rewrite Hp in Hspec. destruct Hspec as [Hv (fields & -> & Hi & Hq & Hc)].
  unfold validBody in Hv. rewrite Hi, Hq, Hc in Hv.
  unfold isUuidString, isStringOfLength in Hv.
  apply andb_true_iff in Hv as [[Hvi Hvq]%andb_true_iff Hvc].
  pose proof Hvq as Hvq'.
  apply andb_true_iff in Hvq' as [Hlo%Nat.leb_le Hhi%Nat.leb_le].
  split_and!; [done | done | done | done | by exists fields |].
  destruct r as [i q c]. cbn [id query chatId] in *.
  unfold requestToJson, researchRequestSchema_parse.
  cbn [id query chatId property String.eqb Ascii.eqb Bool.eqb].
  unfold z_string_uuid, z_string_min_max.
  rewrite Hvi. cbn [mbind Result_bind]. rewrite Hvq. cbn [mbind Result_bind].
  by rewrite Hvc.
Qed.

Lemma researchRequestSchema_accepted_witness :
  let r := {| id := "123e4567-e89b-42d3-a456-426614174000";
              query := "hello";
              chatId := "123e4567-e89b-42d3-a456-426614174001" |} in
  Sample.isUuid (id r) = true ∧
  Sample.isUuid (chatId r) = true ∧
  (1 ≤ String.length (query r))%nat ∧ (String.length (query r) ≤ 2000)%nat ∧
  (∃ fields, JObj (("extra", JBool true) :: [("id", JStr (id r));
                                             ("query", JStr (query r));
                                             ("chatId", JStr (chatId r))])
             = JObj fields ∧
             property "id" fields = Some (JStr (id r)) ∧
             property "query" fields = Some (JStr (query r)) ∧
             property "chatId" fields = Some (JStr (chatId r))) ∧
  researchRequestSchema_parse Sample.isUuid (requestToJson r) = Ok r.
Proof.
  apply (researchRequestSchema_accepted Sample.isUuid
           (JObj (("extra", JBool true) ::
                  [("id", JStr "123e4567-e89b-42d3-a456-426614174000");
                   ("query", JStr "hello");
                   ("chatId", JStr "123e4567-e89b-42d3-a456-426614174001")]))).
  vm_compute. reflexivity.
Defined.

Lemma run_first_call (newURL : string → Result URL) (provider : Provider)
  (query : string) :
  ∃ rest, snd (createUIMessageStream (execute newURL provider query)) =
          rewriteCall query :: rest.
Proof.
  destruct (generateText provider (rewriteCall query)) as [rw | e] eqn:H1.
  2: { rewrite (OrchestratorFacts.run_rewrite_raises _ _ _ _ H1). by eexists. }
  destruct (generateText provider (searchCall rw)) as [sc | e] eqn:H2.
  2: { rewrite (OrchestratorFacts.run_search_raises _ _ _ _ _ H1 H2). by eexists. }
  destruct (streamText provider
              (synthesisCall query rw sc
                 (Extractor.extractSources_reference newURL sc)))
    as [syn | e] eqn:H3.
  - rewrite (OrchestratorFacts.run_streamText_returns _ _ _ _ _ _ H1 H2 H3).
    by eexists.
  - rewrite (OrchestratorFacts.run_streamText_throws _ _ _ _ _ _ H1 H2 H3).
    by eexists.
Qed.

(** X11. A valid body from a caller with a session user is answered with
    status 200 and the event stream of the pipeline run on the body's query:
    authentication is consulted, then the stream is opened, then the stages
    are invoked, the first of them the query rewriter with the query exactly
    as it was sent. *)
Theorem POST_accepted_runs_pipeline :
  ∀ (isUuid : string → bool) (newURL : string → Result URL)
    (provider : Provider) (auth : option Session) (request : Request)
    (fields : list (string * JValue)) (q : string) (u : User),
    json request = Ok (JObj fields) →
    validBody isUuid (JObj fields) = true →
    property "query" fields = Some (JStr q) →
    auth ≫= user = Some u →
    let h := POST isUuid newURL provider auth request in
    let run := createUIMessageStream (execute newURL provider q) in
    response h = {| statusCode := 200; body := StreamBody (fst run) |} ∧
    effects h = AuthConsulted :: StreamOpened :: map StageInvoked (snd run) ∧
    ∃ rest, effects h =
            AuthConsulted :: StreamOpened :: StageInvoked (rewriteCall q) :: rest.
Proof.
  intros isUuid newURL provider auth request fields q u Hj Hv Hq Hu h run.
  subst h run. unfold POST. rewrite Hj. cbn [mbind Result_bind].
  pose proof (RouteFacts.researchRequestSchema_parse_spec isUuid (JObj fields)) as Hspec.
  destruct (researchRequestSchema_parse isUuid (JObj fields)) as [r | e].
  2: { congruence. }
  destruct Hspec as [_ (fields' & [= <-] & _ & Hq' & _)].
  assert (query r = q) as -> by congruence.
  rewrite Hu.
  destruct (createUIMessageStream (execute newURL provider q)) as [stream stages] eqn:Hrun.
  cbn [response effects fst snd]. split_and!; [done | done |].
  destruct (run_first_call newURL provider q) as [rest Hrest].
  rewrite Hrun in Hrest. cbn [snd] in Hrest. rewrite Hrest. by eexists.
Qed.

Lemma POST_accepted_runs_pipeline_witness :
  let h := POST Sample.isUuid Sample.newURL Sample.working Sample.signedIn
             {| json := Ok (Sample.body Sample.query) |} in
  let run := createUIMessageStream
               (execute Sample.newURL Sample.working Sample.query) in
  response h = {| statusCode := 200; body := StreamBody (fst run) |} ∧
  effects h = AuthConsulted :: StreamOpened :: map StageInvoked (snd run) ∧
  ∃ rest, effects h =
          AuthConsulted :: StreamOpened ::
          StageInvoked (rewriteCall Sample.query) :: rest.
Proof.
  apply (POST_accepted_runs_pipeline Sample.isUuid Sample.newURL Sample.working
           Sample.signedIn {| json := Ok (Sample.body Sample.query) |}
           [ ("id", JStr "123e4567-e89b-42d3-a456-426614174000");
             ("query", JStr Sample.query);
             ("chatId", JStr "123e4567-e89b-42d3-a456-426614174001") ]
           Sample.query {| user_id := "u1" |}).
  - reflexivity.
  - vm_compute. reflexivity.
  - reflexivity.
  - reflexivity.
Defined.

End RouteMore.

(** ** File upload route *)

Module UploadFacts.
Import Upload Links.

Lemma acceptable_dec (f : File) :
  ((file_size f <=? maxSize)%N && bool_decide (file_type f ∈ acceptedTypes) = true)
  ↔ acceptable f.
Proof.
  unfold acceptable. rewrite andb_true_iff, N.leb_le, bool_decide_eq_true. reflexivity.
Qed.

Lemma FileSchema_safeParse_spec (notBlob : list string) (e : FormEntry) :
  match FileSchema_safeParse notBlob e with
  | Success f => e = FileEntry f ∧ acceptable f
  | Failure messages =>
      (∃ v, e = TextEntry v ∧ messages = notBlob) ∨
      (∃ f, e = FileEntry f ∧ ¬ acceptable f ∧
            messages =
              (if (file_size f <=? maxSize)%N then []
               else ["File size should be less than 5MB"]) ++
              (if bool_decide (file_type f ∈ acceptedTypes) then []
               else ["File type should be JPEG or PNG"]))
  end.
Proof.
  destruct e as [v | f]; simpl; [left; by exists v |].
  pose proof (acceptable_dec f) as Hacc.
  destruct (file_size f <=? maxSize)%N eqn:E1;
    destruct (bool_decide (file_type f ∈ acceptedTypes)) eqn:E2;
    simpl in *.
  1: { split; [done | by apply Hacc]. }
  all: right; exists f; rewrite E1, E2; split_and!; [done | | done];
    intros H; apply Hacc in H; discriminate H.
Qed.

Ltac not_written :=
  simpl; intros Hin%list_elem_of_In; simpl in Hin; exfalso;
  intuition discriminate.

(** X12. Nothing is written to disk unless the caller has a session and the
    form holds a file of at most 5 MB whose type is image/jpeg or image/png;
    the file is then written under the generated id followed by a dot and
    the extension of the original name, with the bytes read from it. *)
Theorem upload_writes_only_valid_files :
  ∀ (notBlob : list string) (w : World) (name content : string),
    WriteFileCalled name content ∈ effects (POST notBlob w) →
    ∃ f, is_Some (session w) ∧
         bodyIsNull w = false ∧
         formFile w = Ok (Some (FileEntry f)) ∧
         acceptable f ∧
         name = uuid w +:+ "." +:+ extension (file_name f) ∧
         arrayBuffer w = Ok content.
Proof.
  intros notBlob w name content. unfold POST, failed.
  destruct (session w) as [s |]; [| not_written].
  destruct (bodyIsNull w); [not_written |].
  destruct (formFile w) as [[entry |] | e]; [| not_written | not_written].
  pose proof (FileSchema_safeParse_spec notBlob entry) as Hsp.
  destruct entry as [[| c v] | f0]; [not_written | |];
    destruct (FileSchema_safeParse notBlob _) as [f | messages];
    try not_written.
  destruct Hsp as [[= <-] Hacc].
  destruct (dirExists w); [| destruct (mkdir w) as [[] | e]];
      destruct (arrayBuffer w) as [buf | e'];
      try not_written;
      destruct (writeFile w) as [[] | e'']; simpl;
      intros Hin%list_elem_of_In; simpl in Hin; exists f0;
      (assert (name = uuid w +:+ "." +:+ extension (file_name f0) ∧ content = buf)
         as [-> ->] by (intuition congruence));
      by split_and!.
Qed.

Lemma upload_writes_only_valid_files_witness :
  ∃ f, is_Some (session (Sample.world Sample.photo)) ∧
       bodyIsNull (Sample.world Sample.photo) = false ∧
       formFile (Sample.world Sample.photo) = Ok (Some (FileEntry f)) ∧
       acceptable f ∧
       "1b4e28ba-2fa1-41d2-883f-0016d3cca427.png" =
         uuid (Sample.world Sample.photo) +:+ "." +:+ extension (file_name f) ∧
       arrayBuffer (Sample.world Sample.photo) = Ok "bytes".
Proof.
  apply (upload_writes_only_valid_files [] (Sample.world Sample.photo)
           "1b4e28ba-2fa1-41d2-883f-0016d3cca427.png" "bytes").
  vm_compute. apply list_elem_of_In. simpl. tauto.
Defined.

Lemma safeParse_acceptable (notBlob : list string) (f : File) :
  acceptable f → FileSchema_safeParse notBlob (FileEntry f) = Success f.
Proof.
  intros Hacc. apply acceptable_dec in Hacc.
  apply andb_true_iff in Hacc as [H1 H2]. unfold FileSchema_safeParse.
  by rewrite H1, H2.
Qed.

Lemma safeParse_unacceptable (notBlob : list string) (f : File) :
  ¬ acceptable f →
  FileSchema_safeParse notBlob (FileEntry f) =
  Failure ((if (file_size f <=? maxSize)%N then []
            else ["File size should be less than 5MB"]) ++
           (if bool_decide (file_type f ∈ acceptedTypes) then []
            else ["File type should be JPEG or PNG"])).
Proof.
  intros Hacc. pose proof (FileSchema_safeParse_spec notBlob (FileEntry f)) as Hsp.
  destruct (FileSchema_safeParse notBlob (FileEntry f)) as [f' | messages].
  - destruct Hsp as [[= <-] ?]. done.
  - destruct Hsp as [(v & [=] & _) | (f' & [= <-] & _ & ->)]. done.
Qed.

(** An upload answered with status 200 went through every step. *)
Lemma upload_success_cases (notBlob : list string) (w : World) :
  status (response (POST notBlob w)) = 200 →
  ∃ f content, uploadable w f content.
Proof.
  unfold POST, failed, uploadable.
  destruct (session w) as [s |]; [| discriminate].
  destruct (bodyIsNull w); [discriminate |].
  destruct (formFile w) as [[entry |] | e]; [| discriminate | discriminate].
  pose proof (FileSchema_safeParse_spec notBlob entry) as Hsp.
  destruct entry as [[| c v] | f0]; [discriminate | |];
    destruct (FileSchema_safeParse notBlob _) as [f | messages];
    try discriminate.
  { by destruct Hsp as [[=] _]. }
  destruct Hsp as [[= <-] Hacc].
  destruct (dirExists w) eqn:Hdir; [| destruct (mkdir w) as [[] | e] eqn:Hmk];
    try discriminate;
    (destruct (arrayBuffer w) as [buf | e']; [| discriminate]);
    (destruct (writeFile w) as [[] | e'']; [| discriminate]);
    intros _; exists f0, buf; split_and!; try done; auto.
Qed.

(** The answer and the calls of an upload that goes through. *)
Lemma upload_success_response (notBlob : list string) (w : World)
  (f : File) (content : string) :
  uploadable w f content →
  POST notBlob w =
  {| response :=
       {| status := 200;
          body := JsonUploaded
                    ("/uploads/" +:+ uuid w +:+ "." +:+ extension (file_name f))
                    (uuid w +:+ "." +:+ extension (file_name f))
                    (file_type f)
                    ("attachment; filename=" +:+ quote +:+ file_name f +:+ quote) |};
     effects := AuthCalled :: FormDataRead ::
                (if dirExists w then [] else [MkdirCalled]) ++
                [WriteFileCalled
                   (uuid w +:+ "." +:+ extension (file_name f)) content] |}.
Proof.
  intros ([s Hs] & Hb & Hf & Hacc & Hdir & Hbuf & Hwr). unfold POST.
  rewrite Hs, Hb, Hf, (safeParse_acceptable _ _ Hacc), Hbuf, Hwr.
  destruct (dirExists w); [done |].
  destruct Hdir as [? | ->]; done.
Qed.

(** X13. The upload is answered with status 200 exactly when the caller has
    a session, the body is present, the form holds an acceptable file, the
    uploads directory exists or can be created, and reading and writing the
    file succeed.  The answer then names the stored file: url is
    [/uploads/] followed by the pathname, the content type is the file's, and
    the one write made is that of this file. *)
Theorem upload_succeeds_iff :
  ∀ (notBlob : list string) (w : World),
    (status (response (POST notBlob w)) = 200 ↔
     ∃ f content, uploadable w f content) ∧
    (∀ (f : File) (content : string),
       uploadable w f content →
       let name := uuid w +:+ "." +:+ extension (file_name f) in
       POST notBlob w =
       {| response :=
            {| status := 200;
               body := JsonUploaded ("/uploads/" +:+ name) name (file_type f)
                         ("attachment; filename=" +:+ quote +:+
                          file_name f +:+ quote) |};
          effects := AuthCalled :: FormDataRead ::
                     (if dirExists w then [] else [MkdirCalled]) ++
                     [WriteFileCalled name content] |}).
Proof.
  intros notBlob w. split; [split |].
  - apply upload_success_cases.
  - intros (f & content & Hup).
    by rewrite (upload_success_response notBlob _ _ _ Hup).
  - intros f content Hup. by apply upload_success_response.
Qed.

Lemma upload_succeeds_iff_witness :
  uploadable (Sample.world Sample.photo) Sample.photo "bytes" ∧
  POST [] (Sample.world Sample.photo) =
  {| response :=
       {| status := 200;
          body := JsonUploaded
                    "/uploads/1b4e28ba-2fa1-41d2-883f-0016d3cca427.png"
                    "1b4e28ba-2fa1-41d2-883f-0016d3cca427.png"
                    "image/png"
                    ("attachment; filename=" +:+ quote +:+ "holiday.photo.png" +:+
                     quote) |};
     effects := [AuthCalled; FormDataRead; MkdirCalled;
                 WriteFileCalled "1b4e28ba-2fa1-41d2-883f-0016d3cca427.png"
                   "bytes"] |}.
Proof.
  assert (uploadable (Sample.world Sample.photo) Sample.photo "bytes") as Hup.
  { unfold uploadable.
    refine (conj _ (conj _ (conj _ (conj (conj _ _) (conj _ (conj _ _)))))).
    - by eexists.
    - reflexivity.
    - reflexivity.
    - by vm_compute.
    - apply list_elem_of_In. simpl. tauto.
    - right. reflexivity.
    - reflexivity.
    - reflexivity. }
  split; [exact Hup |].
  exact (proj2 (upload_succeeds_iff [] (Sample.world Sample.photo))
           Sample.photo "bytes" Hup).
Defined.

(** X14. A file that is too large or of another type is refused with status
    400 before the disk is touched, and the message names every failed check:
    the size message, the type message, or both joined by a comma. *)
Theorem upload_rejects_invalid_file :
  ∀ (notBlob : list string) (w : World) (s : Orchestrator.Session) (f : File),
    session w = Some s →
    bodyIsNull w = false →
    formFile w = Ok (Some (FileEntry f)) →
    ¬ acceptable f →
    POST notBlob w =
    {| response :=
         {| status := 400;
            body := JsonError
              (if (file_size f <=? maxSize)%N
               then "File type should be JPEG or PNG"
               else if bool_decide (file_type f ∈ acceptedTypes)
                    then "File size should be less than 5MB"
                    else "File size should be less than 5MB, File type should be JPEG or PNG") |};
       effects := [AuthCalled; FormDataRead] |}.
Proof.
  intros notBlob w s f Hs Hb Hf Hacc. unfold POST.
  rewrite Hs, Hb, Hf, (safeParse_unacceptable _ _ Hacc).
  pose proof (acceptable_dec f) as Hdec.
  destruct (file_size f <=? maxSize)%N;
    destruct (bool_decide (file_type f ∈ acceptedTypes)); try reflexivity.
  exfalso. apply Hacc, Hdec. reflexivity.
Qed.

Lemma upload_rejects_invalid_file_witness :
  POST [] (Sample.world Sample.notes) =
  {| response :=
       {| status := 400;
          body := JsonError
            "File size should be less than 5MB, File type should be JPEG or PNG" |};
     effects := [AuthCalled; FormDataRead] |}.
Proof.
  apply (upload_rejects_invalid_file [] (Sample.world Sample.notes)
           {| Orchestrator.user := None |} Sample.notes);
    try reflexivity.
  intros [Hsize _]. vm_compute in Hsize. apply Hsize. reflexivity.
Defined.

(** X15. Status 500 is answered exactly when a call inside the [try] block
    throws: reading the form, or, for an acceptable file, creating the
    missing directory, reading the bytes or writing the file. *)
Theorem upload_fails_iff :
  ∀ (notBlob : list string) (w : World),
    status (response (POST notBlob w)) = 500 ↔
    is_Some (session w) ∧ bodyIsNull w = false ∧
    ((∃ e, formFile w = Raise e) ∨
     (∃ f, formFile w = Ok (Some (FileEntry f)) ∧ acceptable f ∧
           ((dirExists w = false ∧ ∃ e, mkdir w = Raise e) ∨
            (∃ e, arrayBuffer w = Raise e) ∨
            (∃ e, writeFile w = Raise e)))).
Proof.
  intros notBlob w. unfold POST, failed.
  destruct (session w) as [s |].
  2: { split; [discriminate | by intros [[? [=]] _]]. }
  destruct (bodyIsNull w).
  { split; [discriminate | by intros (_ & [=] & _)]. }
  destruct (formFile w) as [[entry |] | e].
  3: { split; [| done]. intros _. split_and!; [done | done |]. left. by exists e. }
  2: { split; [discriminate |].
       intros (_ & _ & [[e [=]] | (f & [=] & _)]). }
  destruct entry as [v | f].
  { destruct v as [| c v]; simpl;
      (split; [discriminate | intros (_ & _ & [[e [=]] | (f & [=] & _)])]). }
  destruct (decide (acceptable f)) as [Hacc | Hacc].
  - rewrite (safeParse_acceptable _ _ Hacc).
    destruct (dirExists w) eqn:Hdir.
    + destruct (arrayBuffer w) as [buf | e1] eqn:Hbuf.
      * destruct (writeFile w) as [[] | e2] eqn:Hwr; simpl.
        -- split; [discriminate |].
           intros (_ & _ & [[e [=]] | (f' & _ & _ & [[[=] _] | [[e [=]] | [e [=]]]])]).
        -- split; [| done]. intros _. split_and!; [done | done |].
           right. exists f. split_and!; [done | done |]. right. right. by exists e2.
      * simpl. split; [| done]. intros _. split_and!; [done | done |].
        right. exists f. split_and!; [done | done |]. right. left. by exists e1.
    + destruct (mkdir w) as [[] | e0] eqn:Hmk.
      * destruct (arrayBuffer w) as [buf | e1] eqn:Hbuf.
        -- destruct (writeFile w) as [[] | e2] eqn:Hwr; simpl.
           ++ split; [discriminate |].
              intros (_ & _ & [[e [=]] | (f' & _ & _ & [[_ [e [=]]] | [[e [=]] | [e [=]]]])]).
           ++ split; [| done]. intros _. split_and!; [done | done |].
              right. exists f. split_and!; [done | done |]. right. right. by exists e2.
        -- simpl. split; [| done]. intros _. split_and!; [done | done |].
           right. exists f. split_and!; [done | done |]. right. left. by exists e1.
      * simpl. split; [| done]. intros _. split_and!; [done | done |].
        right. exists f. split_and!; [done | done |]. left. split; [done | by exists e0].
  - rewrite (safeParse_unacceptable _ _ Hacc). simpl.
    split; [discriminate |].
    intros (_ & _ & [[e [=]] | (f' & [= <-] & ? & _)]). done.
Qed.


Lemma split_dot_last (s : string) :
  ∃ init seg,
    split_dot s = init ++ [seg] ∧ free_of "." seg ∧
    ((init = [] ∧ s = seg) ∨ (init ≠ [] ∧ ∃ stem, s = stem +:+ "." +:+ seg)).
Proof.
  induction s as [| c s (init & seg & Hsplit & Hfree & Hshape)].
  - exists [], "". split_and!; [done | by intros a ?%elem_of_nil | by left].
  - simpl. destruct (Ascii.eqb c ".") eqn:Ec.
    + apply Ascii.eqb_eq in Ec as ->.
      exists ("" :: init), seg. rewrite Hsplit. split_and!; [done | done |].
      right. split; [done |].
      destruct Hshape as [[_ ->] | [_ [stem ->]]].
      * by exists "".
      * by exists ("." +:+ stem).
    + apply Ascii.eqb_neq in Ec. rewrite Hsplit.
      destruct Hshape as [[-> ->] | [Hne [stem ->]]].
      * exists [], (String c seg). split_and!; [done | | by left].
        intros a [-> | Ha]%elem_of_cons; [done | by apply Hfree].
      * destruct init as [| i0 init0]; [done |].
        exists (String c i0 :: init0), seg. split_and!; [done | done |].
        right. split; [done |]. by exists (String c stem).
Qed.

(** X16. The extension given to a stored file is never empty and contains no
    dot: it is what follows the last dot of the original name, the whole name
    when it has no dot, and [bin] when the name is empty or ends with a
    dot. *)
Theorem extension_of_name :
  ∀ name : string,
    extension name ≠ "" ∧
    free_of "." (extension name) ∧
    ((∃ stem, name = stem +:+ "." +:+ extension name) ∨
     name = extension name ∨
     (extension name = "bin" ∧ (name = "" ∨ ∃ stem, name = stem +:+ "."))).
Proof.
  intros name. unfold extension.
  destruct (split_dot_last name) as (init & seg & -> & Hfree & Hshape).
  rewrite last_snoc. destruct seg as [| c e].
  - split_and!; [done | |].
    + intros a Ha. simpl in Ha.
      repeat (apply elem_of_cons in Ha as [-> | Ha]; [done |]).
      by apply elem_of_nil in Ha.
    + right. right. split; [done |].
      destruct Hshape as [[_ ->] | [_ [stem ->]]]; [by left |].
      right. exists stem. done.
  - split_and!; [done | done |].
    destruct Hshape as [[_ ->] | [_ [stem ->]]]; [by right; left |].
    left. by exists stem.
Qed.

End UploadFacts.

(** ** Model routing and the document editor *)

Module ProvidersFacts.
Import Providers.

Lemma removeSuffix_endsWith (suffix s : string) :
  endsWith suffix s = true → s = removeSuffix suffix s +:+ suffix.
Proof.
  induction s as [| c s IH]; cbn [endsWith removeSuffix].
  - rewrite orb_false_r. intros H. rewrite H.
    apply String.eqb_eq in H as <-. reflexivity.
  - destruct (String.eqb (String c s) suffix) eqn:E.
    + apply String.eqb_eq in E as <-. reflexivity.
    + rewrite orb_false_l. intros H.
      rewrite ExtractorFacts.str_cons. f_equal. by apply IH.
Qed.

Lemma removeSuffix_other (suffix s : string) :
  endsWith suffix s = false → removeSuffix suffix s = s.
Proof.
  induction s as [| c s IH]; cbn [endsWith removeSuffix].
  - rewrite orb_false_r. by intros ->.
  - intros [-> H]%orb_false_iff. f_equal. by apply IH.
Qed.

(** X17. A model is taken from the gateway only outside the test
    environment, when a gateway key is set and the id is not one of the Groq
    models; the gateway is then asked for the id itself, or for the id
    without its ending [-thinking]. *)
Theorem gateway_only_with_key :
  ∀ (env : Env) (modelId g : string),
    viaGateway (getLanguageModel env modelId) = Some g →
    isTestEnvironment env = false ∧
    hasGatewayKey env = true ∧
    (modelId ∉ GROQ_MODELS) ∧
    (modelId = g ∨ modelId = g +:+ "-thinking").
Proof.
  intros env modelId g. unfold getLanguageModel.
  destruct (isTestEnvironment env); [discriminate |].
  destruct (bool_decide (modelId ∈ GROQ_MODELS)) eqn:Hg; [discriminate |].
  apply bool_decide_eq_false in Hg.
  destruct (hasGatewayKey env); [| discriminate]. simpl.
  destruct (includes "reasoning" modelId || endsWith "-thinking" modelId) eqn:Hr; simpl.
  - intros [= <-]. split_and!; [done | done | done |].
    destruct (endsWith "-thinking" modelId) eqn:He.
    + right. by apply removeSuffix_endsWith.
    + left. by rewrite removeSuffix_other.
  - intros [= <-]. split_and!; [done | done | done | by left].
Qed.

Lemma gateway_only_with_key_witness :
  isTestEnvironment {| isTestEnvironment := false; hasGatewayKey := true |} = false ∧
  hasGatewayKey {| isTestEnvironment := false; hasGatewayKey := true |} = true ∧
  ("anthropic/claude-sonnet-thinking" ∉ GROQ_MODELS) ∧
  ("anthropic/claude-sonnet-thinking" = "anthropic/claude-sonnet" ∨
   "anthropic/claude-sonnet-thinking" = "anthropic/claude-sonnet" +:+ "-thinking").
Proof.
  apply (gateway_only_with_key {| isTestEnvironment := false; hasGatewayKey := true |}
           "anthropic/claude-sonnet-thinking" "anthropic/claude-sonnet").
  vm_compute. reflexivity.
Defined.

End ProvidersFacts.

Module EditorFacts.
Import Editor.

Section Table.
Variable serialize : list Child → string.
Variable trim : string → string.

Lemma colCount_max (rows : list (list string)) (r : list string) :
  r ∈ rows → (length r ≤ colCount rows)%nat.
Proof.
  unfold colCount. induction rows as [| r0 rows IH]; [by intros ?%elem_of_nil |].
  intros [-> | Hin]%elem_of_cons; simpl; [lia |]. specialize (IH Hin). lia.
Qed.

Lemma colCount_attained (rows : list (list string)) :
  rows ≠ [] → ∃ row, row ∈ rows ∧ length row = colCount rows.
Proof.
  unfold colCount. induction rows as [| r0 rows IH]; [done |]. intros _.
  destruct rows as [| r1 rows].
  - exists r0. split; [by left |]. simpl. lia.
  - destruct IH as (r & Hr & Hlen); [done |].
    cbn [map foldr] in *.
    destruct (Nat.max_spec (length r0) (Nat.max (length r1) (foldr Nat.max 0%nat (map length rows))))
      as [[_ ->] | [_ ->]].
    + exists r. split; [by right | done].
    + exists r0. split; [by left | done].
Qed.

(** X18. A table without rows makes the serializer write nothing, and the
    block is not closed.  A table of n rows, n at least 1, is written as
    n + 1 lines and then closed: the first row, a separator with as many
    columns as the longest row has cells, then the other rows in order;
    every line opens and closes with a pipe, and each row is written with
    its own cells (an empty cell as one space), so with its own number of
    cells, never more than the separator has. *)
Theorem table_lines :
  ∀ node : list (list (list Child)),
    match node with
    | [] => table serialize trim node = []
    | first :: others =>
        let rows := rowsOf serialize trim node in
        let cellsOf := map (λ cell, trim (cellText serialize cell)) in
        let line := λ cells : list string,
          Write ("| " +:+ String.concat " | " (map orSpace cells) +:+ " |" +:+ nl) in
        ∃ lines,
          table serialize trim node = lines ++ [CloseBlock] ∧
          length lines = S (length node) ∧
          Forall isLine lines ∧
          lines !! 0%nat =
            Some (Write (rowLine (map (λ cell, trim (cellText serialize cell)) first))) ∧
          lines !! 1%nat = Some (Write (separatorLine (colCount rows))) ∧
          Forall (λ row, (length row ≤ colCount rows)%nat) rows ∧
          (∃ row, row ∈ rows ∧ length row = colCount rows) ∧
          lines =
            line (cellsOf first) ::
            Write ("| " +:+ String.concat " | " (repeat "---" (colCount rows)) +:+
                   " |" +:+ nl) ::
            map (λ row, line (cellsOf row)) others ∧
          (∀ (i : nat) (row : list (list Child)),
             others !! i = Some row →
             lines !! S (S i) = Some (line (cellsOf row)) ∧
             length (map orSpace (cellsOf row)) = length row)
    end.
Proof.
  intros [| row0 node]; [done |].
  unfold table. cbn [rowsOf map].
  eexists (_ :: _ :: map _ _). split; [reflexivity |]. split_and!.
  - simpl. by rewrite !length_map.
  - constructor; [by eexists |]. constructor; [by eexists |].
    apply Forall_fmap, Forall_true. intros r. by eexists.
  - reflexivity.
  - reflexivity.
  - apply Forall_forall. intros r Hr. by apply colCount_max.
  - apply colCount_attained. done.
  - do 2 f_equal. apply map_map.
  - intros i row Hi. split; [| by rewrite !length_map].
    lazymatch goal with
    | |- (_ :: _ :: ?l) !! _ = ?r => change (l !! i = r)
    end.
    rewrite map_map.
    lazymatch goal with
    | |- map ?h node !! i = _ => change ((h <$> node) !! i = Some (h row))
    end.
    by rewrite list_lookup_fmap, Hi.
Qed.

End Table.


Lemma hashes_app (s : string) :
  s = hashRun (fst (hashes s)) +:+ snd (hashes s).
Proof.
  induction s as [| c s IH]; [done |]. simpl.
  destruct (decide (c = "#"%char)) as [-> | Hne].
  - destruct (hashes s) as [k rest]. simpl in *. unfold hashRun. simpl.
    rewrite ExtractorFacts.str_cons. by f_equal.
  - destruct c as [[] [] [] [] [] [] [] []]; try done.
Qed.

Lemma hashes_run (k : nat) (c : ascii) (s : string) :
  c ≠ "#"%char → hashes (hashRun k +:+ String c s) = (k, String c s).
Proof.
  intros Hne. induction k as [| k IH].
  - change (hashRun 0 +:+ String c s) with (String c s).
    destruct c as [[] [] [] [] [] [] [] []]; try done.
  - change (hashRun (S k) +:+ String c s)
      with (String "#" (hashRun k +:+ String c s)).
    cbn [hashes]. by rewrite IH.
Qed.

(** X19. [headingRule(level)] fires on exactly the texts made of one to
    [level] characters [#] followed by a single white-space character, and
    it always makes a heading of level [level], however many [#] were typed;
    [headingRule(0)] throws. *)
Theorem headingRule_fires :
  ∀ level : nat,
    match headingRule level with
    | Raise _ => level = 0%nat
    | Ok rule =>
        (1 ≤ level)%nat ∧
        headingLevel rule = level ∧
        ∀ text : string,
          pattern rule text = true ↔
          ∃ (k : nat) (c : ascii),
            (1 ≤ k)%nat ∧ (k ≤ level)%nat ∧ isSpace c = true ∧
            text = hashRun k +:+ String c ""
    end.
Proof.
  intros [| n]; [done |]. cbn [headingRule pattern headingLevel].
  split_and!; [lia | done |]. intros text. unfold headingPattern. split.
  - pose proof (hashes_app text) as Happ.
    destruct (hashes text) as [k rest]. simpl in Happ.
    intros [[Hlo%Nat.leb_le Hhi%Nat.leb_le]%andb_true_iff Hrest]%andb_true_iff.
    destruct rest as [| c [| ? ?]]; try done.
    by exists k, c.
  - intros (k & c & Hlo & Hhi & Hc & ->).
    rewrite hashes_run by (intros ->; done).
    apply Nat.leb_le in Hlo, Hhi. by rewrite Hlo, Hhi, Hc.
Qed.

End EditorFacts.
